(** * mijiamon: decoders, accumulator, listener, flush loop and active poller

    A shallow embedding of the two programs of the repository:
    - the passive listener (processAdvLYWSD03MMC, processAdvLYWSDCGQ,
      sensor.processAdv, sensor.flush, advHandler, advFilter and the flush
      goroutine of main), and
    - the active poller (readBatteryLevel, readTemperatureAndHumidity, poll,
      Run and the shared mutex).

    Go values are modelled as the code has them: a []byte is a slice with a
    length and a capacity, an index or slice expression out of range is a
    run-time panic, a (value, error) return is a pair, float64 is the
    kernel's binary64, a map[string]interface{} is a finite map. *)

From Stdlib Require Import ZArith Lia PrimFloat Uint63.
From Stdlib Require FloatOps SpecFloat.
From Stdlib Require Import Strings.String Strings.Ascii Strings.Byte.
From stdpp Require Import gmap strings list fin_maps.

Open Scope Z_scope.

(* ===================================================================== *)
(** ** Go run-time: panics, slices, fixed-width integers, float64        *)
(* ===================================================================== *)

Module Go.

(** The run-time panics the modelled code can raise. *)
Inductive panic : Set :=
| IndexOutOfRange        (* b[i] with i >= len(b), res[i] with i >= 2 *)
| SliceBoundsOutOfRange  (* b[lo:hi] with hi > cap(b) or lo > hi *)
| NilDereference         (* s.name with s == nil *)
| NilTypeAssertion.      (* a type assertion on a nil interface value *)

(** A computation either returns or panics.  Go errors are ordinary return
    values and are not part of this type. *)
Inductive run (A : Type) : Type :=
| Ok (a : A)
| Panic (p : panic).
Arguments Ok {A} a.
Arguments Panic {A} p.

#[global] Instance run_ret : MRet run := fun _ a => Ok a.
#[global] Instance run_bind : MBind run := fun _ _ k m =>
  match m with
  | Ok a => k a
  | Panic p => Panic p
  end.

Definition returns {A} (m : run A) : Prop := exists a, m = Ok a.

(** A []byte: the [elems] are the len(b) visible bytes, [spare] is the rest
    of the backing array up to cap(b). *)
Record slice : Set := Slice { elems : list byte; spare : list byte }.

(** A slice with cap(b) = len(b). *)
Definition bytes (l : list byte) : slice := Slice l [].

Definition len (b : slice) : nat := length (elems b).
Definition cap (b : slice) : nat := length (elems b ++ spare b).

(** b[i] *)
Definition index (b : slice) (i : nat) : run byte :=
  match elems b !! i with
  | Some x => Ok x
  | None => Panic IndexOutOfRange
  end.

(** b[lo:hi]; the bound of a slice expression on a slice is cap(b). *)
Definition reslice (b : slice) (lo hi : nat) : run slice :=
  if ((lo <=? hi)%nat && (hi <=? cap b)%nat)%bool
  then Ok (Slice (take (hi - lo) (drop lo (elems b ++ spare b)))
                 (drop hi (elems b ++ spare b)))
  else Panic SliceBoundsOutOfRange.

(** uint16 arithmetic wraps modulo 2^16. *)
Definition wrap16 (z : Z) : Z := Z.land z 65535.

(** uint16(x) and int(x) of a byte x. *)
Definition byte_val (x : byte) : Z := Z.of_N (Byte.to_N x).

(** int16(u) for u a uint16: same bits, two's complement. *)
Definition int16 (u : Z) : Z := (u + 32768) mod 65536 - 32768.

(** float64(z) for an integer z; exact for |z| < 2^53. *)
Definition float64 (z : Z) : float :=
  if z <? 0
  then PrimFloat.opp (PrimFloat.of_uint63 (Uint63.of_Z (- z)))
  else PrimFloat.of_uint63 (Uint63.of_Z z).

(** encoding/binary: LittleEndian.Uint16(b) is
      _ = b[1]; return uint16(b[0]) | uint16(b[1])<<8 *)
Definition Uint16 (b : slice) : run Z :=
  _ ← index b 1;
  b0 ← index b 0;
  b1 ← index b 1;
  mret (Z.lor (byte_val b0) (wrap16 (Z.shiftl (byte_val b1) 8))).

End Go.
Import Go.

(* ===================================================================== *)
(** ** Field sets: type Data map[string]interface{}                     *)
(* ===================================================================== *)

(** The dynamic values the decoders store: float64 and int. *)
Inductive Value : Set :=
| VFloat (f : float)
| VInt (n : Z).

Abbreviation Data := (gmap string Value).

(* ===================================================================== *)
(** ** Payload decoders                                                  *)
(* ===================================================================== *)

Definition processAdvLYWSD03MMC (b : slice) : run Data :=
  if (len b =? 15)%nat then
    t ← reslice b 6 8 ≫= Uint16;
    h ← reslice b 8 10 ≫= Uint16;
    p ← index b 12;
    mret (<["temperature" := VFloat (float64 (int16 t) / 100)%float]>
         (<["humidity" := VFloat (float64 h / 100)%float]>
         (<["battery_pct" := VInt (byte_val p)]> ∅)))
  else mret ∅.

Definition processAdvLYWSDCGQ (b : slice) : run Data :=
  d ← index b 13;
  match byte_val d with
  | 1 =>
      p ← index b 14;
      mret (<["battery_pct" := VInt (byte_val p)]> ∅)
  | 4 =>
      t ← reslice b 14 16 ≫= Uint16;
      h ← reslice b 16 18 ≫= Uint16;
      mret (<["temperature" := VFloat (float64 (int16 t) / 10)%float]>
           (<["humidity" := VFloat (float64 h / 10)%float]> ∅))
  | _ => mret ∅
  end.

(** *** What the layouts say, in the words of the format description *)

(** Unsigned little-endian 16-bit integer with low byte [lo], high byte [hi]. *)
Definition le_uint16 (lo hi : byte) : Z := byte_val lo + 256 * byte_val hi.

(** Signed (two's complement) little-endian 16-bit integer. *)
Definition le_int16 (lo hi : byte) : Z :=
  if le_uint16 lo hi <? 32768 then le_uint16 lo hi else le_uint16 lo hi - 65536.

(** The byte at offset [i] of the payload (x00 past its end). *)
Definition byte_at (b : slice) (i : nat) : byte := nth i (elems b) x00.

(** *** Two payloads as the sensors send them *)

(** LYWSD03MMC with the custom firmware: address, temperature 23.75,
    humidity 45.60, 3000 mV, battery 88, counter, flags. *)
Definition atcPayload : slice :=
  bytes [x01; x00; x00; x38; xc1; xa4; x47; x09; xd0; x11; xb8; x0b; x58; x07; x04].

(** LYWSDCGQ: frame header, address, object id, then 04 and temperature 23.7,
    humidity 55.2. *)
Definition cgqPayload : slice :=
  bytes [x50; x20; xaa; x01; x2a; x02; x00; x00; xa8; x65; x4c; x0d; x10; x04;
         xed; x00; x28; x02].

(* ===================================================================== *)
(** ** The time-series write client                                      *)
(* ===================================================================== *)

(** influxdb2.NewPoint(measurement, tags, fields, ts). *)
Record Point : Type := NewPoint {
  measurement : string;
  tags : gmap string string;
  fields : Data;
  timestamp : Z
}.

(* ===================================================================== *)
(** ** The passive listener                                              *)
(* ===================================================================== *)

Module Listener.

(** type sensor struct.  Every method locks [mu] on entry and unlocks it on
    return, so in this sequential embedding a method call is one atomic
    step and [mu] carries no state. *)
Record sensor : Type := Sensor {
  name : string;
  data : Data;
  processor : slice → run Data
}.

Definition newSensor (name : string) (processor : slice → run Data) : sensor :=
  Sensor name ∅ processor.

(** for k, v := range src { dst[k] = v } *)
Definition assignAll (src dst : Data) : Data :=
  map_fold (λ k v d, <[k := v]> d) dst src.

(** The accumulator's merge: the loop of processAdv over a decoded field set. *)
Definition merge (fs : Data) (s : sensor) : sensor :=
  Sensor (name s) (assignAll fs (data s)) (processor s).

Definition processAdv (s : sensor) (b : slice) : run sensor :=
  fs ← processor s b;
  mret (merge fs s).

(** The accumulator's drain. *)
Definition flush (s : sensor) : Data * sensor :=
  let ret := assignAll (data s) ∅ in
  (ret, Sensor (name s) ∅ (processor s)).

(** encoding/hex *)
Definition hexdigit (n : N) : ascii :=
  match n with
  | 0 => "0" | 1 => "1" | 2 => "2" | 3 => "3" | 4 => "4" | 5 => "5"
  | 6 => "6" | 7 => "7" | 8 => "8" | 9 => "9" | 10 => "a" | 11 => "b"
  | 12 => "c" | 13 => "d" | 14 => "e" | _ => "f"
  end%N%char.

Fixpoint EncodeToString (l : list byte) : string :=
  match l with
  | [] => EmptyString
  | x :: r =>
      String (hexdigit (Byte.to_N x / 16)) (String (hexdigit (Byte.to_N x mod 16))
        (EncodeToString r))
  end.

(** The loop of formatHex over the rest h[i:] of the hex text. *)
Fixpoint formatHexFrom (h : string) : run string :=
  match h with
  | EmptyString => mret EmptyString
  | String _ EmptyString => Panic SliceBoundsOutOfRange
  | String c1 (String c2 r) =>
      match r with
      | EmptyString => mret (String c1 (String c2 EmptyString))
      | _ => out ← formatHexFrom r; mret (String c1 (String c2 (String " " out)))
      end
  end.

Definition formatHex (b : slice) : run string :=
  formatHexFrom (EncodeToString (elems b)).

Record ServiceData : Type := { UUID : string; SData : slice }.

Record Advertisement : Type := {
  Addr : string;                    (* a.Addr().String() *)
  ServiceDatas : list ServiceData   (* a.ServiceData() *)
}.

(** What the process prints. *)
Inductive LogLine : Type :=
| LogAdv (name uuid : string) (n : nat) (hex : string)
| LogFields (name : string) (fs : Data)
| LogWriteError (msg : string).

(** The body of advHandler's loop, for the sensor pointer [s] (None is nil). *)
Fixpoint advLoop (verbose : bool) (s : option sensor) (sds : list ServiceData)
    (log : list LogLine) : run (option sensor * list LogLine) :=
  match sds with
  | [] => mret (s, log)
  | sd :: rest =>
      match s with
      | None => Panic NilDereference
      | Some s0 =>
          hex ← formatHex (SData sd);
          let log' :=
            if verbose
            then log ++ [LogAdv (name s0) (UUID sd) (len (SData sd)) hex]
            else log in
          s1 ← processAdv s0 (SData sd);
          advLoop verbose (Some s1) rest log'
      end
  end.

(** advHandler; the sensors are reached through pointers, so the updated
    sensor is the one the table holds afterwards. *)
Definition advHandler (verbose : bool) (sensors : gmap string sensor)
    (a : Advertisement) : run (gmap string sensor * list LogLine) :=
  r ← advLoop verbose (sensors !! Addr a) (ServiceDatas a) [];
  mret (match r.1 with
        | Some s1 => <[Addr a := s1]> sensors
        | None => sensors
        end, r.2).

Definition advFilter (sensors : gmap string sensor) (a : Advertisement) : bool :=
  match sensors !! Addr a with
  | Some _ => true
  | None => false
  end.

(** ble.Scan(ctx, true, advHandler, advFilter): the library hands an
    advertisement to the handler when the filter accepts it. *)
Definition scanDeliver (verbose : bool) (sensors : gmap string sensor)
    (a : Advertisement) : run (gmap string sensor * list LogLine) :=
  if advFilter sensors a then advHandler verbose sensors a
  else mret (sensors, []).

(** One iteration of the flush goroutine's inner loop for sensor [s]:
    the sensor afterwards, the lines printed and the points handed to
    WritePoint.  [write p] is the error WritePoint returns, if any; [now]
    is time.Now(). *)
Definition flushOne (dryRun : bool) (write : Point → option string) (now : Z)
    (s : sensor) : sensor * list LogLine * list Point :=
  let '(fs, s') := flush s in
  let log := [LogFields (name s) fs] in
  if (negb dryRun && (0 <? size fs)%nat)%bool then
    let p := NewPoint "environment" {["name" := name s]} fs now in
    (s', log ++ match write p with
                | Some e => [LogWriteError e]
                | None => []
                end, [p])
  else (s', log, []).

(** One tick: for _, s := range sensors { ... }.  [now mac] is the clock
    reading when the sensor filed under [mac] is handled. *)
Definition flushStep (dryRun : bool) (write : Point → option string)
    (now : string → Z)
    (acc : gmap string sensor * list LogLine * list Point)
    (kv : string * sensor) : gmap string sensor * list LogLine * list Point :=
  let r := flushOne dryRun write (now kv.1) kv.2 in
  (<[kv.1 := r.1.1]> acc.1.1, acc.1.2 ++ r.1.2, acc.2 ++ r.2).

Definition flushTick (dryRun : bool) (write : Point → option string)
    (now : string → Z) (sensors : gmap string sensor)
    : gmap string sensor * list LogLine * list Point :=
  foldl (flushStep dryRun write now) (sensors, [], []) (map_to_list sensors).

Definition written {A B} (r : A * B * list Point) : list Point := r.2.

(** Decoding each block with the sensor's own decoder and merging it, one
    block after the other: what the listener is to do with the blocks of an
    advertisement of a configured sensor. *)
Fixpoint decodeAndMergeEach (s : sensor) (blocks : list slice) : run sensor :=
  match blocks with
  | [] => mret s
  | b :: rest => s' ← processAdv s b; decodeAndMergeEach s' rest
  end.

(** A table with one configured sensor, an advertisement of that sensor and
    one of a device that is not configured. *)
Definition livingRoom : sensor := newSensor "living room" processAdvLYWSD03MMC.

Definition table : gmap string sensor := {["a4:c1:38:00:00:01" := livingRoom]}.

Definition fromLivingRoom : Advertisement :=
  {| Addr := "a4:c1:38:00:00:01";
     ServiceDatas := [{| UUID := "181a"; SData := atcPayload |}] |}.

Definition fromStranger : Advertisement :=
  {| Addr := "4c:65:a8:00:00:02";
     ServiceDatas := [{| UUID := "fe95"; SData := bytes [x50; x20] |}] |}.

End Listener.

(* ===================================================================== *)
(** ** The active poller                                                 *)
(* ===================================================================== *)

Module Poller.

(** Go's error values, by their text. *)
Inductive error : Set := ErrorString (msg : string).

(** strings.Split(s, sep) for a one-character separator. *)
Fixpoint Split (s : string) (sep : ascii) : list string :=
  match s with
  | EmptyString => [EmptyString]
  | String c r =>
      if Ascii.eqb c sep then EmptyString :: Split r sep
      else match Split r sep with
           | w :: ws => String c w :: ws
           | [] => [String c EmptyString]
           end
  end.

Fixpoint TrimLeft (s : string) (c : ascii) : string :=
  match s with
  | EmptyString => EmptyString
  | String a r => if Ascii.eqb a c then TrimLeft r c else s
  end.

Fixpoint TrimRight (s : string) (c : ascii) : string :=
  match s with
  | EmptyString => EmptyString
  | String a r =>
      match TrimRight r c with
      | EmptyString => if Ascii.eqb a c then EmptyString else String a EmptyString
      | r' => String a r'
      end
  end.

(** strings.Trim(s, cutset) for a one-character cutset. *)
Definition Trim (s : string) (c : ascii) : string := TrimLeft (TrimRight s c) c.

(** parts[i] on a []string. *)
Definition at_index (parts : list string) (i : nat) : run string :=
  match parts !! i with
  | Some x => Ok x
  | None => Panic IndexOutOfRange
  end.

(** res[i] = v on a [2]float64. *)
Definition set2 (res : float * float) (i : nat) (v : float) : run (float * float) :=
  match i with
  | 0%nat => Ok (v, res.2)
  | 1%nat => Ok (res.1, v)
  | _ => Panic IndexOutOfRange
  end.

(** time.Time and time.Duration in nanoseconds; Sub saturates. *)
Definition maxDuration : Z := 9223372036854775807.
Definition minDuration : Z := -9223372036854775808.
Definition Sub (t u : Z) : Z := Z.max minDuration (Z.min maxDuration (t - u)).
Definition Milliseconds (d : Z) : Z := Z.quot d 1000000.

Module Sensor.
Record t : Set := New { Mac : string; Name : string; Timeout : Z; Interval : Z }.
End Sensor.

Module Result.
Record t : Set := Make {
  Name : string;
  Time : Z;
  Temperature : float;
  Humidity : float;
  BatteryPct : Z;
  PollDuration : Z
}.
End Result.

Definition NewSensor (mac name : string) (timeout interval : Z) : Sensor.t :=
  Sensor.New mac name timeout interval.

(** What p.Find returns for the two characteristics the poller looks up:
    [false] is the nil interface value. *)
Record Profile : Set := { batteryPct : bool; temperatureAndHumidity : bool }.

(** What the radio and the clock answer during one call of poll. *)
Record Cycle : Set := {
  start_time : Z;                             (* time.Now() on entry *)
  dial : option error;                        (* err of ble.Dial *)
  discover : Profile * option error;          (* client.DiscoverProfile(true) *)
  readCharacteristic : list byte * option error;
  notification : option (list byte);          (* None: s.Timeout elapses first *)
  end_time : Z                                (* time.Now() when the Result is built *)
}.

Inductive LogLine : Set :=
| LogDialError (name : string) (e : error)
| LogError (e : error).

Section WithParseFloat.

(** strconv.ParseFloat(s, 64). *)
Variable ParseFloat : string → float * option error.

Definition readBatteryLevel (c : Cycle) (p : Profile) : run (Z * option error) :=
  if batteryPct p then
    match (readCharacteristic c).2 with
    | Some err => mret (0, Some err)
    | None => x ← index (bytes (readCharacteristic c).1) 0; mret (byte_val x, None)
    end
  else Panic NilTypeAssertion.

(** for i, pair := range pairs { ... } of readTemperatureAndHumidity, from
    index [i] on. *)
Fixpoint parsePairs (i : nat) (pairs : list string) (res : float * float)
    : run ((float * float) * option error) :=
  match pairs with
  | [] => mret (res, None)
  | pair' :: rest =>
      let parts := Split pair' "=" in
      p1 ← at_index parts 1;
      match ParseFloat p1 with
      | (_, Some err) => mret (res, Some err)
      | (v, None) => res' ← set2 res i v; parsePairs (S i) rest res'
      end
  end.

(** The body of the notification case. *)
Definition parseNotification (req : list byte)
    : run ((float * float) * option error) :=
  let data := Trim (string_of_list_byte req) "000" in
  let pairs := Split data " " in
  parsePairs 0 pairs (0, 0)%float.

Definition readTemperatureAndHumidity (s : Sensor.t) (c : Cycle) (p : Profile)
    : run ((float * float) * option error) :=
  if temperatureAndHumidity p then
    match notification c with
    | Some req => parseNotification req
    | None =>
        mret ((0, 0)%float, Some (ErrorString "timed out waiting for notification"))
    end
  else Panic NilTypeAssertion.

(** poll, between mutex.Lock() and the deferred mutex.Unlock(): the lines
    logged and the Result sent on the channel, if any. *)
Definition poll (s : Sensor.t) (c : Cycle) : run (list LogLine * option Result.t) :=
  let start := start_time c in
  match dial c with
  | Some err => mret ([LogDialError (Sensor.Name s) err], None)
  | None =>
      match (discover c).2 with
      | Some err => mret ([LogError err], None)
      | None =>
          let profile := (discover c).1 in
          r ← readBatteryLevel c profile;
          match r.2 with
          | Some err => mret ([LogError err], None)
          | None =>
              let pct := r.1 in
              q ← readTemperatureAndHumidity s c profile;
              match q.2 with
              | Some err => mret ([LogError err], None)
              | None =>
                  let th := q.1 in
                  mret ([], Some (Result.Make (Sensor.Name s) start th.1 th.2 pct
                                     (Sub (end_time c) start)))
              end
          end
      end
  end.

End WithParseFloat.

(** *** The notification text

    The notification is text of the form KEY=VALUE KEY=VALUE (T=23.7 H=55.2),
    possibly padded with NUL bytes. *)

Fixpoint has_char (c : ascii) (s : string) : bool :=
  match s with
  | EmptyString => false
  | String a r => (Ascii.eqb a c || has_char c r)%bool
  end.

(** A KEY or a VALUE: text without space, '=' or NUL. *)
Definition token (s : string) : bool :=
  (negb (has_char " " s) && negb (has_char "=" s) && negb (has_char "000" s))%bool.

Fixpoint nuls (n : nat) : string :=
  match n with
  | O => EmptyString
  | S m => String "000" (nuls m)
  end.

Definition pairText (k v : string) : string := (k ++ String "=" v)%string.

Definition notificationText (padl : nat) (k1 v1 k2 v2 : string) (padr : nat)
    : list byte :=
  list_byte_of_string
    (nuls padl ++ pairText k1 v1 ++ String " " (pairText k2 v2) ++ nuls padr)%string.

(** The cycle gets as far as waiting for the notification: the dial, the
    discovery and the battery read succeed and the characteristic to
    subscribe to is found. *)
Definition awaitsNotification (c : Cycle) : Prop :=
  dial c = None ∧ (discover c).2 = None ∧
  batteryPct (discover c).1 = true ∧
  (readCharacteristic c).2 = None ∧ (readCharacteristic c).1 ≠ [] ∧
  temperatureAndHumidity (discover c).1 = true.

(** A pair the loop gets past: it has a value field, parts[1], and the
    value parses. *)
Definition numericPair (ParseFloat : string → float * option error)
    (p : string) : Prop :=
  ∃ w, Split p "=" !! 1%nat = Some w ∧ (ParseFloat w).2 = None.

(** 23.7 and 55.2 as float64. *)
Definition f23_7 : float := 0x1.7b33333333333p+4%float.
Definition f55_2 : float := 0x1.b99999999999ap+5%float.

(** *** A reference reading of decimal literals

    strconv.ParseFloat on the plain decimal literals [sign] digits [. digits]
    with at most 15 digits: the digits form an integer mantissa below 2^53
    and the result is the mantissa divided by the power of ten, rounded
    once.  Every other text is answered with a syntax error here; the
    theorems below hold for any ParseFloat and use this one only to run
    the poller on concrete payloads. *)

Definition digit (c : ascii) : option Z :=
  let n := Z.of_N (N_of_ascii c) in
  if ((48 <=? n) && (n <=? 57))%bool then Some (n - 48) else None.

(** Leading digits of [s]: their value on top of [acc], how many, the rest. *)
Fixpoint readDigits (s : string) (acc : Z) (n : nat) : Z * nat * string :=
  match s with
  | EmptyString => (acc, n, EmptyString)
  | String c r =>
      match digit c with
      | Some d => readDigits r (10 * acc + d) (S n)
      | None => (acc, n, s)
      end
  end.

Definition errSyntax : error := ErrorString "invalid syntax".

Definition decimalFloat (s : string) : float * option error :=
  let '(neg, s1) :=
    match s with
    | String "-" r => (true, r)
    | String "+" r => (false, r)
    | _ => (false, s)
    end in
  let '(m1, n1, s2) := readDigits s1 0 0 in
  let '(m, n2, s3) :=
    match s2 with
    | String "." r => readDigits r m1 0
    | _ => (m1, 0%nat, s2)
    end in
  match s3 with
  | EmptyString =>
      if ((1 <=? n1 + n2) && (n1 + n2 <=? 15))%nat%bool then
        let f := (float64 m / float64 (10 ^ Z.of_nat n2))%float in
        (if neg then PrimFloat.opp f else f, None)
      else (0%float, Some errSyntax)
  | _ => (0%float, Some errSyntax)
  end.

(** A sensor and a cycle in which everything succeeds: the radio answers
    one second after the start with battery 88 and T=23.7 H=55.2, and the
    Result is built three seconds after the start. *)
Definition bedroom : Sensor.t :=
  Sensor.New "a4:c1:38:00:00:01" "bedroom" 10000000000 60000000000.

Definition goodCycle : Cycle := {|
  start_time := 1000000000;
  dial := None;
  discover := ({| batteryPct := true; temperatureAndHumidity := true |}, None);
  readCharacteristic := ([x58], None);
  notification := Some (notificationText 0 "T" "23.7" "H" "55.2" 1);
  end_time := 4000000000
|}.

(** The same cycle with a notification whose first value is not a number. *)
Definition badCycle : Cycle := {|
  start_time := 1000000000;
  dial := None;
  discover := ({| batteryPct := true; temperatureAndHumidity := true |}, None);
  readCharacteristic := ([x58], None);
  notification := Some (notificationText 0 "T" "warm" "H" "55.2" 1);
  end_time := 4000000000
|}.

(** The point main builds from a received Result. *)
Definition resultPoint (r : Result.t) : Point :=
  NewPoint "environment" {["name" := Result.Name r]}
    (<["temperature" := VFloat (Result.Temperature r)]>
    (<["humidity" := VFloat (Result.Humidity r)]>
    (<["battery_pct" := VInt (Result.BatteryPct r)]>
    (<["poll_duration_ms" := VInt (Milliseconds (Result.PollDuration r))]> ∅))))
    (Result.Time r).

End Poller.

(* ===================================================================== *)
(** ** The pollers as concurrent goroutines                              *)
(* ===================================================================== *)

Module Pollers.

(** Where the goroutine `go sensor.Run(results)` of one sensor stands. *)
Inductive stage : Set :=
| Ticking                (* in Run, outside poll *)
| Locking                (* in poll, at mutex.Lock() *)
| Dialing                (* ble.Dial *)
| Discovering            (* client.DiscoverProfile *)
| ReadingBattery         (* s.readBatteryLevel *)
| AwaitingNotification   (* s.readTemperatureAndHumidity *)
| Sending                (* results <- Result{...} *)
| Unlocking.             (* returning: the deferred mutex.Unlock() *)

(** The stages of a poll cycle: from the return of Lock to the deferred
    Unlock. *)
Definition inCycle (st : stage) : bool :=
  match st with
  | Ticking | Locking => false
  | _ => true
  end.

(** The control flow of poll's body: every call either succeeds and goes on
    or fails and returns. *)
Inductive next : stage → stage → Prop :=
| dial_ok : next Dialing Discovering
| dial_err : next Dialing Unlocking
| discover_ok : next Discovering ReadingBattery
| discover_err : next Discovering Unlocking
| battery_ok : next ReadingBattery AwaitingNotification
| battery_err : next ReadingBattery Unlocking
| notify_ok : next AwaitingNotification Sending
| notify_err : next AwaitingNotification Unlocking
| sent : next Sending Unlocking.

(** The process: the one sync.Mutex and the stage of each sensor's goroutine. *)
Record system : Set := System { mutex : bool; at_ : nat → stage }.

Definition move (σ : system) (i : nat) (st : stage) : nat → stage :=
  λ j, if decide (j = i) then st else at_ σ j.

Definition init : system := System false (λ _, Ticking).

(** One step of one goroutine.  Lock returns only when the mutex is free. *)
Inductive step : system → system → Prop :=
| step_call σ i :
    at_ σ i = Ticking →
    step σ (System (mutex σ) (move σ i Locking))
| step_lock σ i :
    at_ σ i = Locking → mutex σ = false →
    step σ (System true (move σ i Dialing))
| step_body σ i st :
    next (at_ σ i) st →
    step σ (System (mutex σ) (move σ i st))
| step_unlock σ i :
    at_ σ i = Unlocking →
    step σ (System false (move σ i Ticking)).

Inductive reachable : system → Prop :=
| reach_init : reachable init
| reach_step σ σ' : reachable σ → step σ σ' → reachable σ'.

(** The invariant of the lock. *)
Definition exclusive (σ : system) : Prop :=
  (mutex σ = false → ∀ i, inCycle (at_ σ i) = false) ∧
  (∀ i j, inCycle (at_ σ i) = true → inCycle (at_ σ j) = true → i = j).

(** Sensor 0 has taken the lock and is dialing; sensor 1 has called poll
    and waits in Lock. *)
Definition contended : system :=
  System true
    (move (System false (move (System false (move init 0 Locking)) 1 Locking))
          0 Dialing).

End Pollers.

(* ===================================================================== *)
(** * Further behaviour of the two programs                            *)
(* ===================================================================== *)

(** ** What the decoders read *)

(** The byte at offset [i] of the backing array of the slice: past len(b)
    these are the spare bytes up to cap(b) (x00 past cap(b)). *)
Definition backing_at (b : slice) (i : nat) : byte :=
  nth i (elems b ++ spare b) x00.

(** The integer nearest to a finite float (halves go away from zero), and
    the reading a decoded value stands for at scale [k]: the integer
    nearest to x * k. *)
Definition nearest (x : float) : Z :=
  match FloatOps.Prim2SF x with
  | SpecFloat.S754_finite s m e =>
      let v := if 0 <=? e then Z.shiftl (Z.pos m) e
               else Z.shiftr (2 * Z.pos m + Z.shiftl 1 (- e)) (1 - e) in
      if s then - v else v
  | _ => 0
  end.

Definition reading (k : Z) (x : float) : Z := nearest (x * float64 k)%float.

(** [f] holds of the [n] integers from [lo] on. *)
Fixpoint holdsFrom (f : Z → bool) (lo : Z) (n : nat) : bool :=
  match n with
  | O => true
  | S m => f lo && holdsFrom f (lo + 1) m
  end.

(** The payload [atcPayload] as another sensor would send it later: other
    address, other battery voltage, counter and flags, the same readings. *)
Definition atcPayloadElsewhere : slice :=
  bytes [x02; x00; x00; x38; xc1; xa4; x47; x09; xd0; x11; x10; x0b; x58; x2a; x05].

(** A LYWSDCGQ block cut after the discriminator, inside a longer packet:
    14 visible bytes, the next four in the backing array. *)
Definition cgqCut : slice :=
  Slice [x50; x20; xaa; x01; x2a; x02; x00; x00; xa8; x65; x4c; x0d; x10; x04]
        [xed; x00; x28; x02].

(** formatHex in one piece: two lower-case hex digits per byte, single
    spaces between the bytes. *)
Definition hexPair (x : byte) : string :=
  String (Listener.hexdigit (Byte.to_N x / 16))
    (String (Listener.hexdigit (Byte.to_N x mod 16)) EmptyString).

Fixpoint spaced (l : list byte) : string :=
  match l with
  | [] => EmptyString
  | x :: r =>
      match r with
      | [] => hexPair x
      | _ => (hexPair x +:+ String " " (spaced r))%string
      end
  end.

(** The line advHandler prints for a block in verbose mode. *)
Definition advLine (name : string) (sd : Listener.ServiceData) : Listener.LogLine :=
  Listener.LogAdv name (Listener.UUID sd) (len (Listener.SData sd))
    (spaced (elems (Listener.SData sd))).

(** Kinds of lines of the flush goroutine. *)
Definition isFields (l : Listener.LogLine) : bool :=
  match l with Listener.LogFields _ _ => true | _ => false end.

Definition isWriteError (l : Listener.LogLine) : bool :=
  match l with Listener.LogWriteError _ => true | _ => false end.

(** WritePoint returned an error for [p]. *)
Definition failed (write : Point → option string) (p : Point) : bool :=
  match write p with Some _ => true | None => false end.

(** ** The listener's start-up *)

Module ListenerMain.
Import Listener.

(** An entry of conf.Sensors. *)
Record SensorConf : Type := { Mac : string; Name : string; Type_ : string }.

Section WithToLower.

(** strings.ToLower. *)
Variable ToLower : string → string.

(** The loop of main over conf.Sensors, filling the table [sensors];
    None is log.Fatalf, which ends the process. *)
Fixpoint configure (conf : list SensorConf) (sensors : gmap string sensor)
    : option (gmap string sensor) :=
  match conf with
  | [] => Some sensors
  | s :: rest =>
      let mac := ToLower (Mac s) in
      if String.eqb (Type_ s) "LYWSD03MMC" then
        configure rest (<[mac := newSensor (Name s) processAdvLYWSD03MMC]> sensors)
      else if String.eqb (Type_ s) "LYWSDCGQ/01ZM" then
        configure rest (<[mac := newSensor (Name s) processAdvLYWSDCGQ]> sensors)
      else None
  end.

End WithToLower.

(** The decoder a sensor type selects, if the type is known. *)
Definition decoderOf (ty : string) : option (slice → run Data) :=
  if String.eqb ty "LYWSD03MMC" then Some processAdvLYWSD03MMC
  else if String.eqb ty "LYWSDCGQ/01ZM" then Some processAdvLYWSDCGQ
  else None.

(** strings.ToLower on ASCII text. *)
Definition lowerChar (c : ascii) : ascii :=
  let n := N_of_ascii c in
  if ((65 <=? n) && (n <=? 90))%N%bool then ascii_of_N (n + 32) else c.

Fixpoint asciiLower (s : string) : string :=
  match s with
  | EmptyString => EmptyString
  | String c r => String (lowerChar c) (asciiLower r)
  end.

Definition exampleConf : list SensorConf :=
  [ {| Mac := "A4:C1:38:00:00:01"; Name := "living room"; Type_ := "LYWSD03MMC" |};
    {| Mac := "4c:65:a8:00:00:02"; Name := "cellar"; Type_ := "LYWSDCGQ/01ZM" |};
    {| Mac := "a4:c1:38:00:00:01"; Name := "lounge"; Type_ := "LYWSD03MMC" |} ].

(** The table [exampleConf] gives: its third entry has the address of the
    first and replaces it. *)
Definition lounge : sensor := newSensor "lounge" processAdvLYWSD03MMC.
Definition cellar : sensor := newSensor "cellar" processAdvLYWSDCGQ.

Definition exampleTable : gmap string sensor :=
  <["a4:c1:38:00:00:01" := lounge]>
    (<["4c:65:a8:00:00:02" := cellar]>
       (<["a4:c1:38:00:00:01" := newSensor "living room" processAdvLYWSD03MMC]> ∅)).

(** An advertisement of the lounge sensor with two service-data blocks. *)
Definition twoBlocks : Advertisement :=
  {| Addr := "a4:c1:38:00:00:01";
     ServiceDatas := [{| UUID := "181a"; SData := atcPayload |};
                      {| UUID := "181a"; SData := atcPayloadElsewhere |}] |}.

End ListenerMain.

(** ** Cycles that go wrong *)

Module PollerCases.
Import Poller.

(** The cycle [goodCycle] with another notification. *)
Definition notified (text : string) : Cycle := {|
  start_time := 1000000000;
  dial := None;
  discover := ({| batteryPct := true; temperatureAndHumidity := true |}, None);
  readCharacteristic := ([x58], None);
  notification := Some (list_byte_of_string text);
  end_time := 4000000000
|}.

(** A device whose profile lacks the battery characteristic: p.Find
    returns nil. *)
Definition noBattery : Cycle := {|
  start_time := 1000000000;
  dial := None;
  discover := ({| batteryPct := false; temperatureAndHumidity := true |}, None);
  readCharacteristic := ([x58], None);
  notification := Some (notificationText 0 "T" "23.7" "H" "55.2" 1);
  end_time := 4000000000
|}.

End PollerCases.

(** ** How far a cycle is from its end *)

(** The calls of poll's body still ahead at a stage, the deferred Unlock
    not counted. *)
Definition remaining (st : Pollers.stage) : nat :=
  match st with
  | Pollers.Dialing => 5
  | Pollers.Discovering => 4
  | Pollers.ReadingBattery => 3
  | Pollers.AwaitingNotification => 2
  | Pollers.Sending => 1
  | _ => 0
  end.

(** ** poll with its calls and its deferred calls *)

Module PollCalls.
Import Poller.

(** What the second version of poll logs besides. *)
Inductive Line : Set :=
| Plain (l : LogLine)                      (* the lines of the first version *)
| Connecting (name : string)               (* "%s: connecting" *)
| Named (name : string) (e : error).       (* "%s: %s" *)

(** The calls poll makes on the mutex, the clock, the radio, the log and
    the channel. *)
Inductive Call : Set :=
| MutexLock
| MutexUnlock
| TimeNow
| WithTimeout (d : Z)
| CtxCancel
| Dial (mac : string)
| CancelConnection
| WatchDisconnected                         (* go func() { <-client.Disconnected() ... }() *)
| AwaitDisconnected                         (* <-done *)
| DiscoverProfile
| ReadCharacteristic
| Subscribe
| Unsubscribe
| AwaitNotification                         (* the select *)
| Log (l : Line)
| Send (r : Result.t).

(** A computation with the calls it has made so far. *)
Inductive traced (A : Type) : Type := Traced (calls : list Call) (out : run A).
Arguments Traced {A} calls out.

Definition calls {A} (t : traced A) : list Call :=
  match t with Traced cs _ => cs end.
Definition out {A} (t : traced A) : run A :=
  match t with Traced _ o => o end.

#[global] Instance traced_ret : MRet traced := λ _ a, Traced [] (Ok a).
#[global] Instance traced_bind : MBind traced := λ _ _ k m,
  match m with
  | Traced cs (Ok a) => match k a with Traced cs' o => Traced (cs ++ cs') o end
  | Traced cs (Panic p) => Traced cs (Panic p)
  end.

Definition call (c : Call) : traced unit := Traced [c] (Ok tt).
Definition panic_with {A} (p : panic) : traced A := Traced [] (Panic p).

(** defer d; body: the deferred call runs when the body returns and also
    when it panics. *)
Definition deferring {A} (d : Call) (body : traced A) : traced A :=
  match body with Traced cs o => Traced (cs ++ [d]) o end.

Section WithParseFloat.
Variable ParseFloat : string → float * option error.

Definition readBatteryLevelCalls (c : Cycle) (p : Profile)
    : traced (Z * option error) :=
  if batteryPct p then
    _ ← call ReadCharacteristic;
    match (readCharacteristic c).2 with
    | Some err => mret (0, Some err)
    | None =>
        match (readCharacteristic c).1 with
        | x :: _ => mret (byte_val x, None)
        | [] => panic_with IndexOutOfRange
        end
    end
  else panic_with NilTypeAssertion.

(** readTemperatureAndHumidity; the two versions differ in the error the
    timeout case returns only. *)
Definition readTemperatureAndHumidityCalls (timeoutError : error) (c : Cycle)
    (p : Profile) : traced ((float * float) * option error) :=
  if temperatureAndHumidity p then
    _ ← call Subscribe;
    deferring Unsubscribe
      (_ ← call AwaitNotification;
       match notification c with
       | Some req => Traced [] (parseNotification ParseFloat req)
       | None => mret ((0, 0)%float, Some timeoutError)
       end)
  else panic_with NilTypeAssertion.

(** poll of src/main.go. *)
Definition pollCalls (s : Sensor.t) (c : Cycle) : traced unit :=
  _ ← call MutexLock;
  deferring MutexUnlock
    (_ ← call TimeNow;
     let start := start_time c in
     _ ← call (WithTimeout (Sensor.Timeout s));
     deferring CtxCancel
       (_ ← call (Dial (Sensor.Mac s));
        match dial c with
        | Some err => call (Log (Plain (LogDialError (Sensor.Name s) err)))
        | None =>
            deferring CancelConnection
              (_ ← call DiscoverProfile;
               match (discover c).2 with
               | Some err => call (Log (Plain (LogError err)))
               | None =>
                   let profile := (discover c).1 in
                   r ← readBatteryLevelCalls c profile;
                   match r.2 with
                   | Some err => call (Log (Plain (LogError err)))
                   | None =>
                       q ← readTemperatureAndHumidityCalls
                             (ErrorString "timed out waiting for notification")
                             c profile;
                       match q.2 with
                       | Some err => call (Log (Plain (LogError err)))
                       | None =>
                           _ ← call TimeNow;
                           call (Send (Result.Make (Sensor.Name s) start
                                         q.1.1 q.1.2 r.1
                                         (Sub (end_time c) start)))
                       end
                   end
               end)
        end)).

(** poll of the second version (the one that passes ctx on): [ctxErr] is
    ctx.Err() once the deadline has passed. *)
Definition pollCtxCalls (ctxErr : error) (s : Sensor.t) (c : Cycle)
    : traced unit :=
  _ ← call MutexLock;
  deferring MutexUnlock
    (_ ← call TimeNow;
     let start := start_time c in
     _ ← call (WithTimeout (Sensor.Timeout s));
     deferring CtxCancel
       (_ ← call (Dial (Sensor.Mac s));
        _ ← call (Log (Connecting (Sensor.Name s)));
        match dial c with
        | Some err => call (Log (Plain (LogDialError (Sensor.Name s) err)))
        | None =>
            _ ← call WatchDisconnected;
            _ ← call DiscoverProfile;
            match (discover c).2 with
            | Some err => call (Log (Named (Sensor.Name s) err))
            | None =>
                let profile := (discover c).1 in
                r ← readBatteryLevelCalls c profile;
                match r.2 with
                | Some err => call (Log (Named (Sensor.Name s) err))
                | None =>
                    q ← readTemperatureAndHumidityCalls ctxErr c profile;
                    match q.2 with
                    | Some err => call (Log (Named (Sensor.Name s) err))
                    | None =>
                        _ ← call TimeNow;
                        _ ← call (Send (Result.Make (Sensor.Name s) start
                                          q.1.1 q.1.2 r.1
                                          (Sub (end_time c) start)));
                        _ ← call CancelConnection;
                        call AwaitDisconnected
                    end
                end
            end
        end)).

End WithParseFloat.

(** What a run of calls printed in the first version's lines, and what it
    sent. *)
Definition printed (cs : list Call) : list LogLine :=
  omap (λ c, match c with Log (Plain l) => Some l | _ => None end) cs.

Definition sent (cs : list Call) : list Result.t :=
  omap (λ c, match c with Send r => Some r | _ => None end) cs.

(** Kinds of calls, and how many calls of a kind a run makes. *)
Definition isLock (c : Call) : bool :=
  match c with MutexLock => true | _ => false end.
Definition isUnlock (c : Call) : bool :=
  match c with MutexUnlock => true | _ => false end.
Definition isCancelConnection (c : Call) : bool :=
  match c with CancelConnection => true | _ => false end.
Definition isSubscribe (c : Call) : bool :=
  match c with Subscribe => true | _ => false end.
Definition isUnsubscribe (c : Call) : bool :=
  match c with Unsubscribe => true | _ => false end.
Definition isSend (c : Call) : bool :=
  match c with Send _ => true | _ => false end.
Definition isRadio (c : Call) : bool :=
  match c with
  | DiscoverProfile | ReadCharacteristic | Subscribe | Unsubscribe
  | AwaitNotification => true
  | _ => false
  end.

Definition count (kind : Call → bool) (cs : list Call) : nat :=
  length (List.filter kind cs).

(** The last [n] calls of a run. *)
Definition ending (n : nat) (cs : list Call) : list Call :=
  drop (length cs - n) cs.

End PollCalls.

(* ===================================================================== *)
(** * Proofs                                                             *)
(* ===================================================================== *)

(** ** The decoders *)

Module DecoderFacts.

Lemma byte_val_range (x : byte) : 0 <= byte_val x < 256.
Proof.
  unfold byte_val. pose proof (Byte.to_N_bounded x). lia.
Qed.

Lemma lor_shift_bytes (x y : Z) :
  0 <= x < 256 → 0 <= y < 256 →
  Z.lor x (wrap16 (Z.shiftl y 8)) = x + 256 * y.
Proof.
  intros Hx Hy. unfold wrap16.
  change 65535 with (Z.ones 16).
  rewrite Z.land_ones, Z.shiftl_mul_pow2 by lia.
  rewrite Z.mod_small by lia.
  rewrite <- Z.lxor_lor, <- Z.add_nocarry_lxor; try lia.
  all: apply Z.bits_inj'; intros n Hn; rewrite Z.land_spec, Z.bits_0.
  all: destruct (Z.lt_ge_cases n 8) as [Hlt | Hge].
  all: try (rewrite (Z.mul_pow2_bits_low y 8 n) by lia; apply andb_false_r).
  all: rewrite (Z.bits_above_log2 x n); [reflexivity | lia |].
  all: destruct (Z.eq_dec x 0) as [-> | Hne]; [simpl; lia |].
  all: apply Z.log2_lt_pow2; [lia |]; apply Z.lt_le_trans with (2 ^ 8); [lia |];
       apply Z.pow_le_mono_r; lia.
Qed.

Lemma int16_signed (lo hi : byte) :
  int16 (le_uint16 lo hi) = le_int16 lo hi.
Proof.
  unfold int16, le_int16, le_uint16.
  pose proof (byte_val_range lo). pose proof (byte_val_range hi).
  destruct (Z.ltb_spec (byte_val lo + 256 * byte_val hi) 32768);
    Z.div_mod_to_equations; lia.
Qed.

Lemma index_lookup (b : slice) (i : nat) (x : byte) :
  elems b !! i = Some x → index b i = Ok x.
Proof. unfold index. now intros ->. Qed.

Lemma index_short (b : slice) (i : nat) :
  (len b <= i)%nat → index b i = Panic IndexOutOfRange.
Proof.
  unfold index, len. intros H. now rewrite (lookup_ge_None_2 _ _ H).
Qed.

(** Reading a little-endian uint16 at offset [lo] of the backing array,
    which holds the two bytes [x], [y] there. *)
Lemma Uint16_at_backing (b : slice) (lo : nat) (x y : byte) :
  (elems b ++ spare b) !! lo = Some x → (elems b ++ spare b) !! S lo = Some y →
  reslice b lo (S (S lo)) ≫= Uint16 = Ok (le_uint16 x y).
Proof.
  intros Hx Hy. unfold reslice, cap.
  assert (Hlen : (S (S lo) <= length (elems b ++ spare b))%nat).
  { apply lookup_lt_Some in Hy. lia. }
  rewrite (proj2 (Nat.leb_le lo (S (S lo)))) by lia.
  rewrite (proj2 (Nat.leb_le _ _) Hlen). simpl andb. cbv iota.
  replace (S (S lo) - lo)%nat with 2%nat by lia.
  assert (H0 : drop lo (elems b ++ spare b) !! 0%nat = Some x).
  { now rewrite lookup_drop, Nat.add_0_r. }
  assert (H1 : drop lo (elems b ++ spare b) !! 1%nat = Some y).
  { now rewrite lookup_drop, Nat.add_1_r. }
  destruct (drop lo (elems b ++ spare b)) as [| x' [| y' r]]; try discriminate.
  injection H0 as ->. injection H1 as ->.
  cbn. f_equal. apply lor_shift_bytes; apply byte_val_range.
Qed.

(** The same within the payload. *)
Lemma Uint16_at (b : slice) (lo : nat) (x y : byte) :
  elems b !! lo = Some x → elems b !! S lo = Some y →
  reslice b lo (S (S lo)) ≫= Uint16 = Ok (le_uint16 x y).
Proof.
  intros Hx Hy. apply Uint16_at_backing; now apply lookup_app_l_Some.
Qed.

(** A two-byte window inside the capacity can always be read. *)
Lemma Uint16_within_cap (b : slice) (lo : nat) :
  (S (S lo) <= cap b)%nat → ∃ z, reslice b lo (S (S lo)) ≫= Uint16 = Ok z.
Proof.
  unfold cap. intros H.
  destruct (lookup_lt_is_Some_2 (elems b ++ spare b) lo) as [x Hx]; [lia |].
  destruct (lookup_lt_is_Some_2 (elems b ++ spare b) (S lo)) as [y Hy]; [lia |].
  exists (le_uint16 x y). now apply Uint16_at_backing.
Qed.

Lemma byte_at_lookup (b : slice) (i : nat) :
  (i < len b)%nat → elems b !! i = Some (byte_at b i).
Proof.
  intros H. unfold byte_at.
  destruct (lookup_lt_is_Some_2 (elems b) i H) as [x Hx].
  now rewrite (nth_lookup_Some _ _ x00 _ Hx).
Qed.

Lemma byte_at_eq (b : slice) (i : nat) (x : byte) :
  elems b !! i = Some x → byte_at b i = x.
Proof. intros H. unfold byte_at. now apply nth_lookup_Some. Qed.


(** C2.  A payload of exactly 15 bytes decodes to exactly the three fields
    temperature = (signed little-endian 16-bit integer at offsets 6-7) / 100,
    humidity = (unsigned little-endian 16-bit integer at offsets 8-9) / 100
    and battery_pct = the byte at offset 12; the bytes 47 09 at offset 6
    (0x0947) give temperature 23.75; a payload of any other length decodes
    to the empty field set. *)
Theorem processAdvLYWSD03MMC_layout (b : slice) :
  (len b = 15%nat →
   processAdvLYWSD03MMC b =
     Ok (<["temperature" :=
             VFloat (float64 (le_int16 (byte_at b 6) (byte_at b 7)) / 100)%float]>
        (<["humidity" :=
             VFloat (float64 (le_uint16 (byte_at b 8) (byte_at b 9)) / 100)%float]>
        (<["battery_pct" := VInt (byte_val (byte_at b 12))]> ∅)))) ∧
  (len b = 15%nat → byte_at b 6 = x47 → byte_at b 7 = x09 →
   ∃ d, processAdvLYWSD03MMC b = Ok d ∧
        d !! "temperature" = Some (VFloat 23.75%float)) ∧
  (len b ≠ 15%nat → processAdvLYWSD03MMC b = Ok ∅).
Proof.
  assert (Hfull : len b = 15%nat →
   processAdvLYWSD03MMC b =
     Ok (<["temperature" :=
             VFloat (float64 (le_int16 (byte_at b 6) (byte_at b 7)) / 100)%float]>
        (<["humidity" :=
             VFloat (float64 (le_uint16 (byte_at b 8) (byte_at b 9)) / 100)%float]>
        (<["battery_pct" := VInt (byte_val (byte_at b 12))]> ∅)))).
  { intros Hlen. unfold processAdvLYWSD03MMC.
    rewrite (proj2 (Nat.eqb_eq _ _) Hlen).
    rewrite (Uint16_at b 6 (byte_at b 6) (byte_at b 7))
      by (apply byte_at_lookup; lia).
    rewrite (Uint16_at b 8 (byte_at b 8) (byte_at b 9))
      by (apply byte_at_lookup; lia).
    rewrite (index_lookup b 12 (byte_at b 12)) by (apply byte_at_lookup; lia).
    cbn [mbind run_bind mret run_ret]. now rewrite int16_signed. }
  split; [exact Hfull | split].
  - intros Hlen H6 H7. eexists. split; [exact (Hfull Hlen) |].
    rewrite lookup_insert_eq, H6, H7. reflexivity.
  - intros Hlen. unfold processAdvLYWSD03MMC.
    now rewrite (proj2 (Nat.eqb_neq _ _) Hlen).
Qed.


Lemma switch_other (d : byte) (A : Type) (k1 k4 k : A) :
  d ≠ x01 → d ≠ x04 →
  match byte_val d with 1 => k1 | 4 => k4 | _ => k end = k.
Proof. intros H1 H4. destruct d; try reflexivity; contradiction. Qed.

Lemma reslice_short (b : slice) (lo hi : nat) :
  (cap b < hi)%nat → reslice b lo hi = Panic SliceBoundsOutOfRange.
Proof.
  intros H. unfold reslice. rewrite (proj2 (Nat.leb_gt hi (cap b)) H).
  now rewrite andb_false_r.
Qed.

(** C6.  For a payload long enough to index: discriminator 0x01 at offset 13
    gives exactly battery_pct = the byte at offset 14; discriminator 0x04
    gives exactly temperature = (signed little-endian 16-bit at offsets
    14-15) / 10 and humidity = (unsigned little-endian 16-bit at offsets
    16-17) / 10; every other discriminator gives the empty field set. *)
Theorem processAdvLYWSDCGQ_layout (b : slice) :
  ((14 < len b)%nat → byte_at b 13 = x01 →
   processAdvLYWSDCGQ b =
     Ok (<["battery_pct" := VInt (byte_val (byte_at b 14))]> ∅)) ∧
  ((17 < len b)%nat → byte_at b 13 = x04 →
   processAdvLYWSDCGQ b =
     Ok (<["temperature" :=
             VFloat (float64 (le_int16 (byte_at b 14) (byte_at b 15)) / 10)%float]>
        (<["humidity" :=
             VFloat (float64 (le_uint16 (byte_at b 16) (byte_at b 17)) / 10)%float]>
         ∅))) ∧
  ((13 < len b)%nat → byte_at b 13 ≠ x01 → byte_at b 13 ≠ x04 →
   processAdvLYWSDCGQ b = Ok ∅).
Proof.
  unfold processAdvLYWSDCGQ. split; [| split].
  - intros Hlen Hd.
    rewrite (index_lookup b 13 (byte_at b 13)) by (apply byte_at_lookup; lia).
    rewrite Hd. cbn [mbind run_bind byte_val Byte.to_N Z.of_N].
    now rewrite (index_lookup b 14 (byte_at b 14)) by (apply byte_at_lookup; lia).
  - intros Hlen Hd.
    rewrite (index_lookup b 13 (byte_at b 13)) by (apply byte_at_lookup; lia).
    rewrite Hd. cbn [mbind run_bind byte_val Byte.to_N Z.of_N].
    rewrite (Uint16_at b 14 (byte_at b 14) (byte_at b 15))
      by (apply byte_at_lookup; lia).
    rewrite (Uint16_at b 16 (byte_at b 16) (byte_at b 17))
      by (apply byte_at_lookup; lia).
    cbn [mbind run_bind mret run_ret]. now rewrite int16_signed.
  - intros Hlen H1 H4.
    rewrite (index_lookup b 13 (byte_at b 13)) by (apply byte_at_lookup; lia).
    cbn [mbind run_bind]. now apply switch_other.
Qed.

(** C1.  The decoder is not total: on a payload of at most 13 bytes it
    panics at b[13] instead of returning the empty field set, where the
    sibling decoder returns the empty set; it also panics on a 14-byte
    payload with discriminator 0x01, and with discriminator 0x04 when the
    backing array ends before offset 18. *)
Theorem processAdvLYWSDCGQ_short_payload (b : slice) :
  ((len b <= 13)%nat →
   processAdvLYWSDCGQ b = Panic IndexOutOfRange ∧
   ¬ returns (processAdvLYWSDCGQ b) ∧
   processAdvLYWSD03MMC b = Ok ∅) ∧
  (len b = 14%nat → byte_at b 13 = x01 →
   processAdvLYWSDCGQ b = Panic IndexOutOfRange) ∧
  ((13 < len b)%nat → (cap b < 18)%nat → byte_at b 13 = x04 →
   processAdvLYWSDCGQ b = Panic SliceBoundsOutOfRange).
Proof.
  unfold processAdvLYWSDCGQ. split; [| split].
  - intros Hlen. rewrite (index_short b 13 Hlen). cbn [mbind run_bind].
    repeat split; [now intros [d Hd] |].
    unfold processAdvLYWSD03MMC.
    now rewrite (proj2 (Nat.eqb_neq (len b) 15)) by lia.
  - intros Hlen Hd.
    rewrite (index_lookup b 13 (byte_at b 13)) by (apply byte_at_lookup; lia).
    rewrite Hd. cbn [mbind run_bind byte_val Byte.to_N Z.of_N].
    now rewrite (index_short b 14) by lia.
  - intros Hlen Hcap Hd.
    rewrite (index_lookup b 13 (byte_at b 13)) by (apply byte_at_lookup; lia).
    rewrite Hd. cbn [mbind run_bind byte_val Byte.to_N Z.of_N].
    rewrite (reslice_short b 16 18 Hcap).
    destruct (Nat.le_gt_cases 16 (cap b)) as [H16 | H16].
    + destruct (Uint16_within_cap b 14 H16) as [z ->]. now cbn.
    + now rewrite (reslice_short b 14 16 H16).
Qed.

Lemma processAdvLYWSD03MMC_layout_witness :
  len atcPayload = 15%nat ∧
  ∃ d, processAdvLYWSD03MMC atcPayload = Ok d ∧
       d !! "temperature" = Some (VFloat 23.75%float).
Proof.
  split; [reflexivity |].
  apply (proj1 (proj2 (processAdvLYWSD03MMC_layout atcPayload))); reflexivity.
Defined.

Lemma processAdvLYWSDCGQ_layout_witness :
  (17 < len cgqPayload)%nat ∧ byte_at cgqPayload 13 = x04 ∧
  processAdvLYWSDCGQ cgqPayload =
    Ok (<["temperature" := VFloat (float64 237 / 10)%float]>
       (<["humidity" := VFloat (float64 552 / 10)%float]> ∅)).
Proof.
  split; [cbn; lia | split; [reflexivity |]].
  apply (proj1 (proj2 (processAdvLYWSDCGQ_layout cgqPayload)));
    [cbn; lia | reflexivity].
Defined.

Lemma processAdvLYWSDCGQ_short_payload_witness :
  (len (bytes []) <= 13)%nat ∧ processAdvLYWSDCGQ (bytes []) = Panic IndexOutOfRange.
Proof.
  split; [cbn; lia |].
  apply (proj1 (processAdvLYWSDCGQ_short_payload (bytes []))). cbn. lia.
Defined.

End DecoderFacts.

(** ** The accumulator, the listener and the flush loop *)

Module ListenerFacts.
Import Listener.

Lemma assignAll_union (src dst : Data) : assignAll src dst = src ∪ dst.
Proof.
  unfold assignAll.
  apply (map_fold_weak_ind (λ r m, r = m ∪ dst)).
  - now rewrite (left_id_L ∅ (∪)).
  - intros k v m r _ ->. now rewrite insert_union_l.
Qed.

Lemma flush_eq (s : sensor) :
  flush s = (data s, Sensor (name s) ∅ (processor s)).
Proof.
  unfold flush. now rewrite assignAll_union, (right_id_L ∅ (∪)).
Qed.

Lemma merge_data (fs : Data) (s : sensor) : data (merge fs s) = fs ∪ data s.
Proof. apply assignAll_union. Qed.

Lemma formatHexFrom_even (l : list byte) :
  ∃ h, formatHexFrom (EncodeToString l) = Ok h.
Proof.
  induction l as [| x l [h Hh]]; [now exists EmptyString |].
  cbn [EncodeToString formatHexFrom]. rewrite Hh.
  destruct (EncodeToString l); eexists; reflexivity.
Qed.

Lemma advLoop_decodeAndMergeEach (verbose : bool) (sds : list ServiceData) :
  ∀ (s : sensor) (log : list LogLine),
    match decodeAndMergeEach s (SData <$> sds) with
    | Ok s' => ∃ log', advLoop verbose (Some s) sds log = Ok (Some s', log') ∧
                       (verbose = false → log' = log)
    | Panic p => advLoop verbose (Some s) sds log = Panic p
    end.
Proof.
  induction sds as [| sd sds IH]; intros s log.
  - cbn. eauto.
  - cbn [fmap list_fmap decodeAndMergeEach advLoop].
    destruct (formatHexFrom_even (elems (SData sd))) as [h Hh].
    unfold formatHex. rewrite Hh. cbn [mbind run_bind].
    destruct (processAdv s (SData sd)) as [s1 | p]; cbn [mbind run_bind]; [| done].
    specialize (IH s1 (if verbose
                       then log ++ [LogAdv (name s) (UUID sd) (len (SData sd)) h]
                       else log)).
    destruct (decodeAndMergeEach s1 (SData <$> sds)) as [s' | p]; [| done].
    destruct IH as (log' & -> & Hlog). eexists. split; [done |].
    intros ->. now apply Hlog.
Qed.

Lemma flushTick_written (dryRun : bool) (write : Point → option string)
    (now : string → Z) (sensors : gmap string sensor) :
  written (flushTick dryRun write now sensors) =
  flat_map (λ kv, (flushOne dryRun write (now kv.1) kv.2).2) (map_to_list sensors).
Proof.
  unfold flushTick, written.
  generalize (map_to_list sensors) as l.
  assert (H : ∀ l acc,
    (foldl (flushStep dryRun write now) acc l).2 =
     acc.2 ++ flat_map (λ kv, (flushOne dryRun write (now kv.1) kv.2).2) l).
  { induction l as [| kv l IH]; intros acc; cbn [foldl flat_map].
    - now rewrite app_nil_r.
    - rewrite IH. unfold flushStep. cbn [snd]. now rewrite <- app_assoc. }
  intros l. now rewrite H.
Qed.

Lemma flushOne_empty (dryRun : bool) (write : Point → option string) (now : Z)
    (s : sensor) :
  data s = ∅ →
  flushOne dryRun write now s =
    (Sensor (name s) ∅ (processor s), [LogFields (name s) ∅], []).
Proof.
  intros H. unfold flushOne. rewrite flush_eq, H.
  rewrite map_size_empty. now rewrite andb_false_r.
Qed.

Lemma flushOne_written_nonempty (dryRun : bool) (write : Point → option string)
    (now : Z) (s : sensor) (p : Point) :
  p ∈ (flushOne dryRun write now s).2 → dryRun = false ∧ fields p ≠ ∅ ∧ fields p = data s.
Proof.
  unfold flushOne. rewrite flush_eq.
  destruct dryRun; cbn [negb andb]; [intros H; inversion H |].
  destruct (Nat.ltb_spec 0 (size (data s))) as [Hs | Hs]; cbn; [| intros H; inversion H].
  intros H. apply list_elem_of_singleton in H as ->. cbn.
  repeat split. intros E. rewrite E, map_size_empty in Hs. lia.
Qed.


(** Called on an advertisement of an address that is not in the table,
    advHandler itself dereferences the nil sensor as soon as there is a
    service-data block; it is the filter that keeps such calls away. *)
Lemma advHandler_unconfigured (verbose : bool) (sensors : gmap string sensor)
    (a : Advertisement) :
  sensors !! Addr a = None → ServiceDatas a ≠ [] →
  advHandler verbose sensors a = Panic NilDereference.
Proof.
  intros Hs Hsd. unfold advHandler. rewrite Hs.
  now destruct (ServiceDatas a).
Qed.

(** C4.  For every accumulator state and every field set F: merging F into
    the freshly drained accumulator (which is what processAdv does with the
    field set its decoder returns) and draining returns exactly F, and a
    second drain right after returns the empty set. *)
Theorem merge_then_drain (s : sensor) (F : Data) :
  let s0 := (flush s).2 in
  (∀ b, processAdv s0 b =
        match processor s0 b with
        | Ok fs => Ok (merge fs s0)
        | Panic p => Panic p
        end) ∧
  (flush (merge F s0)).1 = F ∧
  (flush (flush (merge F s0)).2).1 = ∅.
Proof.
  cbn zeta. rewrite !flush_eq. cbn [fst snd].
  split; [intros b; unfold processAdv; now destruct (processor _ b) |].
  rewrite merge_data. cbn [data name processor merge].
  now rewrite (right_id_L ∅ (∪)).
Qed.

(** C5.  A drain leaves the accumulator empty, and for a sensor whose
    accumulator is empty (nothing merged since its last drain): the drain
    returns the empty field set, the flush loop hands
    no point to the write client for it, so the points written on the tick
    are those written with the sensor left out of the table; and every
    point written on a tick has a non-empty field set. *)
Theorem drain_without_merge_is_silent
    (dryRun : bool) (write : Point → option string) (now : string → Z)
    (sensors : gmap string sensor) (mac : string) (s : sensor) :
  sensors !! mac = Some s →
  data s = ∅ →
  (∀ s0, data (flush s0).2 = ∅) ∧
  (flush s).1 = ∅ ∧
  (flushOne dryRun write (now mac) s).2 = [] ∧
  written (flushTick dryRun write now sensors) ≡ₚ
    written (flushTick dryRun write now (delete mac sensors)) ∧
  (∀ p, p ∈ written (flushTick dryRun write now sensors) → fields p ≠ ∅).
Proof.
  intros Hs Hd. split; [intros s0; now rewrite flush_eq |].
  split; [now rewrite flush_eq |].
  split; [now rewrite flushOne_empty |].
  rewrite !flushTick_written. split.
  - rewrite <- (map_to_list_delete sensors mac s Hs) at 1.
    cbn [flat_map fst snd]. now rewrite flushOne_empty.
  - intros p Hp. apply list_elem_of_In, in_flat_map in Hp as (kv & _ & Hp).
    apply list_elem_of_In in Hp.
    now apply flushOne_written_nonempty in Hp as (_ & ? & _).
Qed.

(** Every block decodes: the accumulator is extended by the field sets in
    the order of the blocks. *)
Lemma decodeAndMergeEach_all (blocks : list slice) :
  ∀ (s : sensor) (Fs : list Data),
    Forall2 (λ b F, processor s b = Ok F) blocks Fs →
    decodeAndMergeEach s blocks =
      Ok (Sensor (name s) (foldl (λ acc F, F ∪ acc) (data s) Fs) (processor s)).
Proof.
  induction blocks as [| b blocks IH]; intros s Fs H.
  - apply Forall2_nil_inv_l in H as ->. now destruct s.
  - apply Forall2_cons_inv_l in H as (F & Fs' & HF & H & ->).
    cbn [decodeAndMergeEach]. unfold processAdv. rewrite HF.
    cbn [mbind run_bind mret run_ret].
    rewrite (IH (merge F s) Fs') by exact H.
    now rewrite merge_data.
Qed.

(** A block on which the decoder panics, after blocks it accepts. *)
Lemma decodeAndMergeEach_panics (before : list slice) :
  ∀ (s : sensor) (Fs : list Data) (b : slice) (after : list slice) (p : panic),
    Forall2 (λ b F, processor s b = Ok F) before Fs →
    processor s b = Panic p →
    decodeAndMergeEach s (before ++ b :: after) = Panic p.
Proof.
  induction before as [| b0 before IH]; intros s Fs b after p H Hp.
  - cbn [app decodeAndMergeEach]. unfold processAdv. now rewrite Hp.
  - apply Forall2_cons_inv_l in H as (F & Fs' & HF & H & ->).
    cbn [app decodeAndMergeEach]. unfold processAdv. rewrite HF.
    cbn [mbind run_bind mret run_ret].
    apply (IH (merge F s) Fs' b after p); [exact H | exact Hp].
Qed.

(** C8.  An advertisement whose address is not in the table is rejected by
    the filter and dropped: the table is returned as it was and nothing is
    logged, whatever the payloads are.  An advertisement of a configured
    sensor has its service-data blocks decoded by that sensor's decoder,
    one after the other: when the decoder returns a field set for each
    block, the table afterwards holds that sensor with its accumulator
    extended by these field sets in the order of the blocks (a later one
    overwriting an earlier one), and no other entry changes.  When the
    decoder panics on a block, the handler panics: neither that block nor
    a later one is merged. *)
Theorem scan_routes_by_address (verbose : bool) (sensors : gmap string sensor)
    (a : Advertisement) :
  (sensors !! Addr a = None →
     advFilter sensors a = false ∧
     scanDeliver verbose sensors a = Ok (sensors, [])) ∧
  (∀ s Fs, sensors !! Addr a = Some s →
     Forall2 (λ sd F, processor s (SData sd) = Ok F) (ServiceDatas a) Fs →
     advFilter sensors a = true ∧
     ∃ log, scanDeliver verbose sensors a =
              Ok (<[Addr a := Sensor (name s)
                                (foldl (λ acc F, F ∪ acc) (data s) Fs)
                                (processor s)]> sensors, log) ∧
            (verbose = false → log = [])) ∧
  (∀ s before sd after Fs p, sensors !! Addr a = Some s →
     ServiceDatas a = before ++ sd :: after →
     Forall2 (λ sd F, processor s (SData sd) = Ok F) before Fs →
     processor s (SData sd) = Panic p →
     advFilter sensors a = true ∧
     scanDeliver verbose sensors a = Panic p).
Proof.
  unfold scanDeliver, advFilter, advHandler. split; [| split].
  - now intros ->.
  - intros s Fs -> HF. split; [done |].
    pose proof (advLoop_decodeAndMergeEach verbose (ServiceDatas a) s []) as H.
    rewrite (decodeAndMergeEach_all _ s Fs) in H by now apply Forall2_fmap_l.
    destruct H as (log & -> & Hlog). cbn. eauto.
  - intros s before sd after Fs p -> Hsd HF Hp. split; [done |].
    pose proof (advLoop_decodeAndMergeEach verbose (ServiceDatas a) s []) as H.
    rewrite Hsd, fmap_app, fmap_cons in H.
    rewrite (decodeAndMergeEach_panics _ s Fs (SData sd) _ p) in H;
      [| now apply Forall2_fmap_l | exact Hp].
    rewrite <- Hsd in H. now rewrite H.
Qed.

Lemma drain_without_merge_is_silent_witness :
  table !! "a4:c1:38:00:00:01" = Some livingRoom ∧ data livingRoom = ∅ ∧
  (flushOne false (λ _, None) 0 livingRoom).2 = [].
Proof.
  split; [reflexivity | split; [reflexivity |]].
  apply (drain_without_merge_is_silent false (λ _, None) (λ _, 0) table
           "a4:c1:38:00:00:01" livingRoom); reflexivity.
Defined.

Lemma scan_routes_by_address_witness :
  (table !! Addr fromStranger = None ∧
   scanDeliver true table fromStranger = Ok (table, [])) ∧
  (table !! Addr fromLivingRoom = Some livingRoom ∧
   ∃ F log, processAdvLYWSD03MMC atcPayload = Ok F ∧ F !! "battery_pct" = Some (VInt 88) ∧
            scanDeliver true table fromLivingRoom =
              Ok (<[Addr fromLivingRoom :=
                      Sensor "living room" (F ∪ ∅) processAdvLYWSD03MMC]> table, log)) ∧
  (ListenerMain.exampleTable !! Addr fromStranger = Some ListenerMain.cellar ∧
   processAdvLYWSDCGQ (bytes [x50; x20]) = Panic IndexOutOfRange ∧
   scanDeliver true ListenerMain.exampleTable fromStranger = Panic IndexOutOfRange).
Proof.
  split; [| split].
  - split; [reflexivity |].
    apply (proj1 (scan_routes_by_address true table fromStranger)). reflexivity.
  - split; [reflexivity |].
    assert (HF : ∃ F, processAdvLYWSD03MMC atcPayload = Ok F ∧
                      F !! "battery_pct" = Some (VInt 88))
      by (eexists; split; reflexivity).
    destruct HF as (F & HF & Hb).
    destruct (proj1 (proj2 (scan_routes_by_address true table fromLivingRoom))
                livingRoom [F] eq_refl) as (_ & log & Hlog & _).
    { constructor; [exact HF | constructor]. }
    exists F, log. split; [exact HF | split; [exact Hb | exact Hlog]].
  - split; [reflexivity | split; [reflexivity |]].
    apply (proj2 (proj2 (scan_routes_by_address true ListenerMain.exampleTable
                           fromStranger))
             ListenerMain.cellar [] {| UUID := "fe95"; SData := bytes [x50; x20] |}
             [] [] IndexOutOfRange); [reflexivity | reflexivity | constructor | reflexivity].
Defined.

End ListenerFacts.

(** ** The active poller *)

Module PollerFacts.
Import Poller.

Lemma append_nil (b : string) : "" +:+ b = b.
Proof. reflexivity. Qed.

Lemma append_cons (x : ascii) (a b : string) :
  String x a +:+ b = String x (a +:+ b).
Proof. reflexivity. Qed.

Lemma append_assoc (a b c : string) : (a +:+ b) +:+ c = a +:+ (b +:+ c).
Proof.
  induction a as [| x a IH]; [done |]. now rewrite !append_cons, IH.
Qed.

Ltac norm_append :=
  repeat (rewrite append_assoc || rewrite append_cons || rewrite append_nil).

Lemma has_char_app (c : ascii) (a b : string) :
  has_char c (a +:+ b) = (has_char c a || has_char c b)%bool.
Proof.
  induction a as [| x a IH]; [done |].
  rewrite append_cons. cbn. now rewrite IH, orb_assoc.
Qed.

Lemma token_chars (s : string) :
  token s = true →
  has_char " " s = false ∧ has_char "=" s = false ∧ has_char "000" s = false.
Proof.
  unfold token. rewrite !andb_true_iff, !negb_true_iff. tauto.
Qed.

Lemma Split_clean (sep : ascii) (s : string) :
  has_char sep s = false → Split s sep = [s].
Proof.
  induction s as [| x s IH]; cbn; [done |].
  intros [Hx Hs]%orb_false_iff. now rewrite Hx, (IH Hs).
Qed.

Lemma Split_app (sep : ascii) (a b : string) :
  has_char sep a = false → Split (a +:+ String sep b) sep = a :: Split b sep.
Proof.
  induction a as [| x a IH].
  - intros _. rewrite append_nil. cbn. now rewrite Ascii.eqb_refl.
  - intros [Hx Ha]%orb_false_iff. rewrite append_cons. cbn.
    now rewrite Hx, (IH Ha).
Qed.

Lemma TrimLeft_nuls (c : ascii) (n : nat) (s : string) :
  c = "000"%char → TrimLeft (nuls n +:+ s) c = TrimLeft s c.
Proof. intros ->. induction n as [| n IH]; [done |]. cbn [nuls]. now rewrite append_cons. Qed.

Lemma TrimLeft_clean (c a : ascii) (k r : string) :
  has_char c k = false → a ≠ c → TrimLeft (k +:+ String a r) c = k +:+ String a r.
Proof.
  intros Hk Ha. destruct k as [| x k].
  - rewrite append_nil. cbn. now rewrite (proj2 (Ascii.eqb_neq a c) Ha).
  - rewrite append_cons. cbn in *. apply orb_false_iff in Hk as [-> _]. done.
Qed.

Lemma TrimRight_nuls (n : nat) : TrimRight (nuls n) "000" = "".
Proof. induction n as [| n IH]; cbn; [done | now rewrite IH]. Qed.

Lemma TrimRight_app_nuls (s : string) (n : nat) :
  TrimRight (s +:+ nuls n) "000" = TrimRight s "000".
Proof.
  induction s as [| x s IH]; [apply TrimRight_nuls |].
  rewrite append_cons. cbn. now rewrite IH.
Qed.

Lemma TrimRight_no_char (c : ascii) (s : string) :
  has_char c s = false → TrimRight s c = s.
Proof.
  induction s as [| x s IH]; cbn; [done |].
  intros [Hx Hs]%orb_false_iff. rewrite (IH Hs), Hx. now destruct s.
Qed.

Lemma TrimRight_clean (c a : ascii) (t s : string) :
  a ≠ c → has_char c s = false →
  TrimRight (t +:+ String a s) c = t +:+ String a s.
Proof.
  intros Ha Hs. induction t as [| x t IH].
  - rewrite append_nil. cbn.
    rewrite (TrimRight_no_char c s Hs), (proj2 (Ascii.eqb_neq a c) Ha).
    now destruct s.
  - rewrite append_cons. cbn. rewrite IH. now destruct t.
Qed.

Lemma Split_pairText (k v : string) :
  token k = true → token v = true → Split (pairText k v) "=" = [k; v].
Proof.
  intros (_ & Hk & _)%token_chars (_ & Hv & _)%token_chars.
  unfold pairText. now rewrite Split_app, Split_clean.
Qed.

Lemma pairText_no_space (k v : string) :
  token k = true → token v = true → has_char " " (pairText k v) = false.
Proof.
  intros (Hk & _ & _)%token_chars (Hv & _ & _)%token_chars.
  unfold pairText. rewrite has_char_app. cbn. now rewrite Hk, Hv.
Qed.

(** The text the parser works on, for a padded two-pair notification. *)
Lemma notification_pairs (padl padr : nat) (k1 v1 k2 v2 : string) :
  token k1 = true → token v1 = true → token k2 = true → token v2 = true →
  Split (Trim (string_of_list_byte (notificationText padl k1 v1 k2 v2 padr)) "000") " "
  = [pairText k1 v1; pairText k2 v2].
Proof.
  intros Hk1 Hv1 Hk2 Hv2. unfold notificationText.
  rewrite string_of_list_byte_of_string. unfold Trim.
  set (core := pairText k1 v1 +:+ String " " (pairText k2 v2)).
  assert (Hr : TrimRight (nuls padl +:+ core) "000" = nuls padl +:+ core).
  { replace (nuls padl +:+ core)
      with ((nuls padl +:+ pairText k1 v1 +:+ String " " k2) +:+ String "=" v2).
    - apply TrimRight_clean; [done | now apply token_chars in Hv2].
    - unfold core, pairText. now norm_append. }
  assert (Hl : TrimLeft core "000" = core).
  { subst core. generalize (String " " (pairText k2 v2)) as rest. intros rest.
    unfold pairText. norm_append.
    apply TrimLeft_clean; [now apply token_chars in Hk1 | done]. }
  replace (nuls padl +:+ pairText k1 v1 +:+ String " " (pairText k2 v2) +:+ nuls padr)
    with ((nuls padl +:+ core) +:+ nuls padr).
  2:{ unfold core. now norm_append. }
  rewrite TrimRight_app_nuls, Hr, TrimLeft_nuls, Hl by done.
  unfold core. rewrite Split_app by now apply pairText_no_space.
  now rewrite Split_clean by now apply pairText_no_space.
Qed.


Section WithParseFloat.

Variable ParseFloat : string → float * option error.

Lemma parsePairs_pairText (i : nat) (k v : string) (rest : list string)
    (res : float * float) :
  token k = true → token v = true →
  parsePairs ParseFloat i (pairText k v :: rest) res =
    match ParseFloat v with
    | (_, Some err) => Ok (res, Some err)
    | (x, None) => res' ← set2 res i x; parsePairs ParseFloat (S i) rest res'
    end.
Proof.
  intros Hk Hv. cbn [parsePairs]. now rewrite Split_pairText.
Qed.

(** The loop returns without an error only if every value it was given
    parses. *)
Lemma parsePairs_no_error (pairs : list string) :
  ∀ (i : nat) (res res' : float * float),
    parsePairs ParseFloat i pairs res = Ok (res', None) →
    ∀ (p v : string), p ∈ pairs → Split p "=" !! 1%nat = Some v →
                      (ParseFloat v).2 = None.
Proof.
  induction pairs as [| q pairs IH]; intros i res res' H p v Hp Hv.
  - inversion Hp.
  - cbn [parsePairs] in H. unfold at_index in H.
    destruct (Split q "=" !! 1%nat) as [w |] eqn:Hw; [| discriminate].
    cbn [mbind run_bind] in H.
    destruct (ParseFloat w) as [x [e |]] eqn:Hpf; [discriminate |].
    destruct (set2 res i x) as [res1 | pn]; [| discriminate].
    cbn [mbind run_bind] in H.
    apply elem_of_cons in Hp as [-> | Hp].
    + rewrite Hw in Hv. injection Hv as <-. now rewrite Hpf.
    + exact (IH _ _ _ H p v Hp Hv).
Qed.

(** The loop runs through numeric pairs as long as they fit the array. *)
Lemma parsePairs_numeric_prefix (good rest : list string) :
  ∀ (i : nat) (res : float * float),
    Forall (numericPair ParseFloat) good → (i + length good <= 2)%nat →
    ∃ res', parsePairs ParseFloat i (good ++ rest) res =
            parsePairs ParseFloat (i + length good) rest res'.
Proof.
  induction good as [| p good IH]; intros i res Hgood Hlen.
  - exists res. cbn. now rewrite Nat.add_0_r.
  - apply Forall_cons in Hgood as [(w & Hw & Hpf) Hgood]. cbn in Hlen.
    cbn [app parsePairs]. unfold at_index. rewrite Hw. cbn [mbind run_bind].
    destruct (ParseFloat w) as [x [e |]]; [discriminate |].
    assert (Hset : ∃ res1, set2 res i x = Ok res1).
    { destruct i as [| [| i]]; cbn; eauto. lia. }
    destruct Hset as [res1 ->]. cbn [mbind run_bind].
    destruct (IH (S i) res1 Hgood) as [res' ->]; [lia |].
    exists res'. cbn [length]. now rewrite Nat.add_succ_r.
Qed.

(** At a pair whose value does not parse the loop returns the error. *)
Lemma parsePairs_bad_value (i : nat) (bad v : string) (rest : list string)
    (res : float * float) (err : error) :
  Split bad "=" !! 1%nat = Some v → (ParseFloat v).2 = Some err →
  parsePairs ParseFloat i (bad :: rest) res = Ok (res, Some err).
Proof.
  intros Hv Herr. cbn [parsePairs]. unfold at_index. rewrite Hv.
  cbn [mbind run_bind]. destruct (ParseFloat v) as [x [e |]]; [| discriminate].
  cbn in Herr. now injection Herr as ->.
Qed.

Lemma numericPair_pairText (k v : string) :
  token k = true → token v = true → (ParseFloat v).2 = None →
  numericPair ParseFloat (pairText k v).
Proof.
  intros Hk Hv Hpf. exists v. now rewrite Split_pairText.
Qed.

(** What poll sends, when it sends. *)
Lemma poll_sends (s : Sensor.t) (c : Cycle) (log : list LogLine) (r : Result.t) :
  poll ParseFloat s c = Ok (log, Some r) →
  ∃ th pct,
    readTemperatureAndHumidity ParseFloat s c (discover c).1 = Ok (th, None) ∧
    r = Result.Make (Sensor.Name s) (start_time c) th.1 th.2 pct
          (Sub (end_time c) (start_time c)).
Proof.
  unfold poll. destruct (dial c); [discriminate |].
  destruct (discover c).2; [discriminate |].
  destruct (readBatteryLevel c (discover c).1) as [[pct [e |]] | p];
    cbn [mbind run_bind fst snd]; try discriminate.
  destruct (readTemperatureAndHumidity ParseFloat s c (discover c).1)
    as [[th [e |]] | p]; cbn [mbind run_bind fst snd]; try discriminate.
  intros H. injection H as _ <-. eauto.
Qed.

(** poll from the notification on, when everything before it succeeds. *)
Lemma poll_awaits (s : Sensor.t) (c : Cycle) :
  awaitsNotification c →
  ∃ pct req rest, readCharacteristic c = (req :: rest, None) ∧ pct = byte_val req ∧
    poll ParseFloat s c =
      match notification c with
      | Some req =>
          q ← parseNotification ParseFloat req;
          match q.2 with
          | Some err => Ok ([LogError err], None)
          | None => Ok ([], Some (Result.Make (Sensor.Name s) (start_time c)
                                    q.1.1 q.1.2 pct (Sub (end_time c) (start_time c))))
          end
      | None => Ok ([LogError (ErrorString "timed out waiting for notification")], None)
      end.
Proof.
  intros (Hd & He & Hb & Hr & Hne & Ht).
  destruct (readCharacteristic c) as [[| x rest] err] eqn:Hrc; [done |].
  cbn in Hr. subst err. exists (byte_val x), x, rest. split; [done | split; [done |]].
  unfold poll, readBatteryLevel, readTemperatureAndHumidity.
  rewrite Hd, He, Hb, Ht, Hrc. cbn [fst snd mbind run_bind index bytes elems lookup].
  cbn. destruct (notification c) as [req |]; [| done].
  now destruct (parseNotification ParseFloat req) as [[th [e |]] | p].
Qed.

End WithParseFloat.


Lemma decimalFloat_examples :
  decimalFloat "23.7" = (f23_7, None) ∧ decimalFloat "55.2" = (f55_2, None).
Proof. split; vm_compute; reflexivity. Qed.

Lemma goodCycle_awaits : awaitsNotification goodCycle.
Proof. repeat split; cbn; congruence. Qed.

(** C3, as amended.  For every poll cycle that sends a Result, the Result's
    time, and so the timestamp of the point written for it, is the clock
    reading taken when the cycle began; the reading taken at the end enters
    only the poll duration, end minus start. *)
Theorem poll_timestamp_is_start (ParseFloat : string → float * option error)
    (s : Sensor.t) (c : Cycle) (log : list LogLine) (r : Result.t) :
  poll ParseFloat s c = Ok (log, Some r) →
  Result.Time r = start_time c ∧
  Result.PollDuration r = Sub (end_time c) (start_time c) ∧
  timestamp (resultPoint r) = start_time c.
Proof.
  intros (th & pct & _ & ->)%poll_sends. now cbn.
Qed.

Lemma goodCycle_result :
  poll decimalFloat bedroom goodCycle =
    Ok ([], Some (Result.Make "bedroom" 1000000000 f23_7 f55_2 88 3000000000)).
Proof. vm_compute. reflexivity. Qed.

Lemma poll_timestamp_is_start_witness :
  poll decimalFloat bedroom goodCycle =
    Ok ([], Some (Result.Make "bedroom" 1000000000 f23_7 f55_2 88 3000000000)) ∧
  Result.Time (Result.Make "bedroom" 1000000000 f23_7 f55_2 88 3000000000)
    = start_time goodCycle.
Proof.
  split; [exact goodCycle_result |].
  exact (proj1 (poll_timestamp_is_start decimalFloat bedroom goodCycle [] _
                  goodCycle_result)).
Defined.

(** C3, as stated, fails: the cycle [goodCycle] starts at 1 s and builds
    its Result at 4 s, and the Result carries 1 s. *)
Lemma poll_timestamp_not_completion :
  poll decimalFloat bedroom goodCycle =
    Ok ([], Some (Result.Make "bedroom" 1000000000 f23_7 f55_2 88 3000000000)) ∧
  Result.Time (Result.Make "bedroom" 1000000000 f23_7 f55_2 88 3000000000)
    ≠ end_time goodCycle ∧
  ¬ (∀ (s : Sensor.t) (c : Cycle) (log : list LogLine) (r : Result.t),
       poll decimalFloat s c = Ok (log, Some r) → Result.Time r = end_time c).
Proof.
  split; [exact goodCycle_result |]. split; [cbn; lia |].
  intros H. specialize (H _ _ _ _ goodCycle_result). cbn in H. lia.
Qed.

(** C7, as amended.  Whatever the payload is, if the value field of any of
    its pairs does not parse as a number, poll sends no Result.  The cycle
    ends with the parse error, logged, when that value field is reached:
    when the pairs before it are at most two and each has a value field
    that parses; so it does for a notification of the form
    KEY=VALUE KEY=VALUE whose first or second value does not parse.  And
    T=23.7 H=55.2 parses to temperature 23.7 and humidity 55.2. *)
Theorem bad_value_aborts_cycle (ParseFloat : string → float * option error)
    (s : Sensor.t) (c : Cycle) :
  (∀ req p v err,
     notification c = Some req →
     p ∈ Split (Trim (string_of_list_byte req) "000") " " →
     Split p "=" !! 1%nat = Some v →
     (ParseFloat v).2 = Some err →
     ∀ log r, poll ParseFloat s c ≠ Ok (log, Some r)) ∧
  (∀ req good bad rest v err,
     awaitsNotification c →
     notification c = Some req →
     Split (Trim (string_of_list_byte req) "000") " " = good ++ bad :: rest →
     Forall (numericPair ParseFloat) good → (length good <= 2)%nat →
     Split bad "=" !! 1%nat = Some v →
     (ParseFloat v).2 = Some err →
     poll ParseFloat s c = Ok ([LogError err], None)) ∧
  (∀ padl padr k1 v1 k2 v2 err,
     awaitsNotification c →
     notification c = Some (notificationText padl k1 v1 k2 v2 padr) →
     token k1 = true → token v1 = true → token k2 = true → token v2 = true →
     (ParseFloat v1).2 = Some err ∨
       ((ParseFloat v1).2 = None ∧ (ParseFloat v2).2 = Some err) →
     poll ParseFloat s c = Ok ([LogError err], None)) ∧
  (ParseFloat "23.7" = (f23_7, None) → ParseFloat "55.2" = (f55_2, None) →
   parseNotification ParseFloat (list_byte_of_string "T=23.7 H=55.2")
     = Ok ((f23_7, f55_2), None) ∧
   (awaitsNotification c →
    notification c = Some (list_byte_of_string "T=23.7 H=55.2") →
    ∃ r, poll ParseFloat s c = Ok ([], Some r) ∧
         Result.Temperature r = f23_7 ∧ Result.Humidity r = f55_2)).
Proof.
  assert (Hstop : ∀ req good bad rest v err,
     awaitsNotification c →
     notification c = Some req →
     Split (Trim (string_of_list_byte req) "000") " " = good ++ bad :: rest →
     Forall (numericPair ParseFloat) good → (length good <= 2)%nat →
     Split bad "=" !! 1%nat = Some v →
     (ParseFloat v).2 = Some err →
     poll ParseFloat s c = Ok ([LogError err], None)).
  { intros req good bad rest v err Hc Hn Hsplit Hgood Hlen Hv Herr.
    destruct (poll_awaits ParseFloat s c Hc) as (pct & x & tl & _ & _ & ->).
    rewrite Hn. unfold parseNotification. rewrite Hsplit.
    destruct (parsePairs_numeric_prefix ParseFloat good (bad :: rest) 0
                (0, 0)%float Hgood Hlen) as [res' ->].
    now rewrite (parsePairs_bad_value ParseFloat _ bad v rest res' err Hv Herr). }
  split; [| split; [exact Hstop | split]].
  - intros req p v err Hn Hp Hv Herr log r (th & pct & Hrd & _)%poll_sends.
    unfold readTemperatureAndHumidity in Hrd. rewrite Hn in Hrd.
    destruct (temperatureAndHumidity (discover c).1); [| discriminate].
    unfold parseNotification in Hrd.
    rewrite (parsePairs_no_error ParseFloat _ _ _ _ Hrd p v Hp Hv) in Herr.
    discriminate.
  - intros padl padr k1 v1 k2 v2 err Hc Hn Hk1 Hv1 Hk2 Hv2 [H1 | [H1 H2]].
    + apply (Hstop _ [] (pairText k1 v1) [pairText k2 v2] v1 err Hc Hn);
        [now apply notification_pairs | constructor | cbn; lia
        | now rewrite Split_pairText | done].
    + apply (Hstop _ [pairText k1 v1] (pairText k2 v2) [] v2 err Hc Hn);
        [now apply notification_pairs
        | repeat constructor; now apply numericPair_pairText | cbn; lia
        | now rewrite Split_pairText | done].
  - intros H1 H2.
    assert (Hp : parseNotification ParseFloat (list_byte_of_string "T=23.7 H=55.2")
                 = Ok ((f23_7, f55_2), None)).
    { change (list_byte_of_string "T=23.7 H=55.2")
        with (notificationText 0 "T" "23.7" "H" "55.2" 0).
      unfold parseNotification.
      rewrite notification_pairs, parsePairs_pairText by done.
      rewrite H1. cbn [set2 mbind run_bind]. rewrite parsePairs_pairText by done.
      now rewrite H2. }
    split; [exact Hp |]. intros Hc Hn.
    destruct (poll_awaits ParseFloat s c Hc) as (pct & x & rest & _ & _ & ->).
    rewrite Hn, Hp. cbn. eauto.
Qed.

Lemma bad_value_aborts_cycle_witness :
  poll decimalFloat bedroom badCycle = Ok ([LogError errSyntax], None) ∧
  parseNotification decimalFloat (list_byte_of_string "T=23.7 H=55.2")
    = Ok ((f23_7, f55_2), None).
Proof.
  pose proof (bad_value_aborts_cycle decimalFloat bedroom badCycle)
    as (_ & _ & Hbad & Hgood).
  split.
  - apply (Hbad 0%nat 1%nat "T" "warm" "H" "55.2" errSyntax);
      [repeat split; cbn; congruence | reflexivity.. |].
    left. vm_compute. reflexivity.
  - apply Hgood; vm_compute; reflexivity.
Defined.

(** C7, as stated, fails: in A=1 B=2 C=3 D=x the value field x does not
    parse, and the cycle ends in a panic, at res[2] of the [2]float64,
    before that value is read: it does not end with an error. *)
Lemma bad_value_after_third_pair_panics :
  awaitsNotification (PollerCases.notified "A=1 B=2 C=3 D=x") ∧
  Split (Trim (string_of_list_byte (list_byte_of_string "A=1 B=2 C=3 D=x")) "000") " "
    = ["A=1"; "B=2"; "C=3"; "D=x"] ∧
  Split "D=x" "=" !! 1%nat = Some "x" ∧
  (decimalFloat "x").2 = Some errSyntax ∧
  poll decimalFloat bedroom (PollerCases.notified "A=1 B=2 C=3 D=x")
    = Panic IndexOutOfRange ∧
  ¬ (∀ (s : Sensor.t) (c : Cycle) (req : list byte) (p v : string) (err : error),
       awaitsNotification c → notification c = Some req →
       p ∈ Split (Trim (string_of_list_byte req) "000") " " →
       Split p "=" !! 1%nat = Some v → (decimalFloat v).2 = Some err →
       ∃ e, poll decimalFloat s c = Ok ([LogError e], None)).
Proof.
  assert (Hc : awaitsNotification (PollerCases.notified "A=1 B=2 C=3 D=x"))
    by (repeat split; cbn; congruence).
  assert (Hs : Split (Trim (string_of_list_byte
                              (list_byte_of_string "A=1 B=2 C=3 D=x")) "000") " "
               = ["A=1"; "B=2"; "C=3"; "D=x"]) by (vm_compute; reflexivity).
  assert (Hp : poll decimalFloat bedroom (PollerCases.notified "A=1 B=2 C=3 D=x")
               = Panic IndexOutOfRange) by (vm_compute; reflexivity).
  split; [exact Hc | split; [exact Hs | split; [reflexivity | split;
    [vm_compute; reflexivity | split; [exact Hp |]]]]].
  intros H.
  destruct (H bedroom (PollerCases.notified "A=1 B=2 C=3 D=x")
              (list_byte_of_string "A=1 B=2 C=3 D=x") "D=x" "x" errSyntax
              Hc eq_refl) as [e He].
  - rewrite Hs. set_solver.
  - reflexivity.
  - vm_compute. reflexivity.
  - rewrite Hp in He. discriminate.
Qed.

(** C10, as amended.  Values are assigned by position, and there are two
    positions: whenever the text splits into two pairs whose value fields
    parse, the first value becomes the temperature and the second the
    humidity; so for every notification KEY=VALUE KEY=VALUE with numeric
    values, whatever the keys are; what the parser returns does not depend
    on the keys at all; H=55.2 T=23.7 gives temperature 55.2 and humidity
    23.7.  A single pair gives its value as the temperature and leaves the
    humidity 0; with three or more pairs of which the first three are
    numeric the parser panics at res[2], the result being a [2]float64. *)
Theorem values_assigned_by_position (ParseFloat : string → float * option error) :
  (∀ req p1 p2 v1 v2 x1 x2,
     Split (Trim (string_of_list_byte req) "000") " " = [p1; p2] →
     Split p1 "=" !! 1%nat = Some v1 → Split p2 "=" !! 1%nat = Some v2 →
     ParseFloat v1 = (x1, None) → ParseFloat v2 = (x2, None) →
     parseNotification ParseFloat req = Ok ((x1, x2), None)) ∧
  (∀ req p1 v1 x1,
     Split (Trim (string_of_list_byte req) "000") " " = [p1] →
     Split p1 "=" !! 1%nat = Some v1 → ParseFloat v1 = (x1, None) →
     parseNotification ParseFloat req = Ok ((x1, 0%float), None)) ∧
  (∀ req p1 p2 p3 rest,
     Split (Trim (string_of_list_byte req) "000") " " = p1 :: p2 :: p3 :: rest →
     numericPair ParseFloat p1 → numericPair ParseFloat p2 →
     numericPair ParseFloat p3 →
     parseNotification ParseFloat req = Panic IndexOutOfRange) ∧
  (∀ padl padr k1 v1 k2 v2 x1 x2,
     token k1 = true → token v1 = true → token k2 = true → token v2 = true →
     ParseFloat v1 = (x1, None) → ParseFloat v2 = (x2, None) →
     parseNotification ParseFloat (notificationText padl k1 v1 k2 v2 padr)
       = Ok ((x1, x2), None) ∧
     ∀ s c, awaitsNotification c →
            notification c = Some (notificationText padl k1 v1 k2 v2 padr) →
            ∃ r, poll ParseFloat s c = Ok ([], Some r) ∧
                 Result.Temperature r = x1 ∧ Result.Humidity r = x2) ∧
  (∀ padl padr k1 k1' v1 k2 k2' v2,
     token k1 = true → token k1' = true → token v1 = true →
     token k2 = true → token k2' = true → token v2 = true →
     parseNotification ParseFloat (notificationText padl k1 v1 k2 v2 padr) =
     parseNotification ParseFloat (notificationText padl k1' v1 k2' v2 padr)) ∧
  (ParseFloat "55.2" = (f55_2, None) → ParseFloat "23.7" = (f23_7, None) →
   parseNotification ParseFloat (list_byte_of_string "H=55.2 T=23.7")
     = Ok ((f55_2, f23_7), None)).
Proof.
  assert (Hgen : ∀ req p1 p2 v1 v2 x1 x2,
     Split (Trim (string_of_list_byte req) "000") " " = [p1; p2] →
     Split p1 "=" !! 1%nat = Some v1 → Split p2 "=" !! 1%nat = Some v2 →
     ParseFloat v1 = (x1, None) → ParseFloat v2 = (x2, None) →
     parseNotification ParseFloat req = Ok ((x1, x2), None)).
  { intros req p1 p2 v1 v2 x1 x2 Hsplit Hv1 Hv2 H1 H2.
    unfold parseNotification. rewrite Hsplit. cbn [parsePairs].
    unfold at_index. rewrite Hv1. cbn [mbind run_bind]. rewrite H1.
    cbn [set2 mbind run_bind]. rewrite Hv2. cbn [mbind run_bind].
    now rewrite H2. }
  assert (Hpos : ∀ padl padr k1 v1 k2 v2 x1 x2,
     token k1 = true → token v1 = true → token k2 = true → token v2 = true →
     ParseFloat v1 = (x1, None) → ParseFloat v2 = (x2, None) →
     parseNotification ParseFloat (notificationText padl k1 v1 k2 v2 padr)
       = Ok ((x1, x2), None)).
  { intros padl padr k1 v1 k2 v2 x1 x2 Hk1 Hv1 Hk2 Hv2 H1 H2.
    apply (Hgen _ (pairText k1 v1) (pairText k2 v2) v1 v2);
      [now apply notification_pairs | now rewrite Split_pairText..| done | done]. }
  split; [exact Hgen | split; [| split; [| split; [| split]]]].
  - intros req p1 v1 x1 Hsplit Hv1 H1.
    unfold parseNotification. rewrite Hsplit. cbn [parsePairs].
    unfold at_index. rewrite Hv1. cbn [mbind run_bind]. now rewrite H1.
  - intros req p1 p2 p3 rest Hsplit Hp1 Hp2 (w & Hw & Hpf).
    unfold parseNotification. rewrite Hsplit.
    destruct (parsePairs_numeric_prefix ParseFloat [p1; p2] (p3 :: rest) 0
                (0, 0)%float) as [res' E]; [repeat constructor; done | cbn; lia |].
    change (p1 :: p2 :: p3 :: rest) with ([p1; p2] ++ p3 :: rest). rewrite E.
    cbn [parsePairs Nat.add length]. unfold at_index. rewrite Hw.
    cbn [mbind run_bind]. now destruct (ParseFloat w) as [v [e |]].
  - intros padl padr k1 v1 k2 v2 x1 x2 Hk1 Hv1 Hk2 Hv2 H1 H2.
    split; [now apply Hpos |]. intros s c Hc Hn.
    destruct (poll_awaits ParseFloat s c Hc) as (pct & x & rest & _ & _ & ->).
    rewrite Hn, (Hpos padl padr k1 v1 k2 v2 x1 x2) by done. cbn. eauto.
  - intros padl padr k1 k1' v1 k2 k2' v2 Hk1 Hk1' Hv1 Hk2 Hk2' Hv2.
    unfold parseNotification.
    rewrite !notification_pairs, !parsePairs_pairText by done.
    destruct (ParseFloat v1) as [x1 [e1 |]]; [done |].
    cbn [set2 mbind run_bind]. now rewrite !parsePairs_pairText by done.
  - intros H1 H2.
    change (list_byte_of_string "H=55.2 T=23.7")
      with (notificationText 0 "H" "55.2" "T" "23.7" 0).
    now apply Hpos.
Qed.

Lemma values_assigned_by_position_witness :
  parseNotification decimalFloat (list_byte_of_string "H=55.2 T=23.7")
    = Ok ((f55_2, f23_7), None) ∧
  parseNotification decimalFloat (notificationText 0 "T" "23.7" "H" "55.2" 1)
    = Ok ((f23_7, f55_2), None) ∧
  parseNotification decimalFloat (list_byte_of_string "T=23.7")
    = Ok ((f23_7, 0%float), None).
Proof.
  pose proof (values_assigned_by_position decimalFloat)
    as (_ & Hone & _ & Hpos & _ & Hswap).
  split; [| split].
  - apply Hswap; vm_compute; reflexivity.
  - apply (Hpos 0%nat 1%nat "T" "23.7" "H" "55.2" f23_7 f55_2);
      vm_compute; reflexivity.
  - apply (Hone _ "T=23.7" "23.7"); vm_compute; reflexivity.
Defined.

(** C10, as stated, fails: T=23.7 H=55.2 B=88 is a payload of KEY=VALUE
    pairs whose values are numeric, and the parser panics on it: no value
    becomes the temperature or the humidity. *)
Lemma third_pair_has_no_position :
  Split (Trim (string_of_list_byte (list_byte_of_string "T=23.7 H=55.2 B=88")) "000") " "
    = ["T=23.7"; "H=55.2"; "B=88"] ∧
  Forall (numericPair decimalFloat) ["T=23.7"; "H=55.2"; "B=88"] ∧
  parseNotification decimalFloat (list_byte_of_string "T=23.7 H=55.2 B=88")
    = Panic IndexOutOfRange ∧
  ¬ (∀ (req : list byte) (p1 p2 : string) (rest : list string)
       (v1 v2 : string) (x1 x2 : float),
       Split (Trim (string_of_list_byte req) "000") " " = p1 :: p2 :: rest →
       Forall (numericPair decimalFloat) (p1 :: p2 :: rest) →
       Split p1 "=" !! 1%nat = Some v1 → Split p2 "=" !! 1%nat = Some v2 →
       decimalFloat v1 = (x1, None) → decimalFloat v2 = (x2, None) →
       parseNotification decimalFloat req = Ok ((x1, x2), None)).
Proof.
  assert (Hs : Split (Trim (string_of_list_byte
                              (list_byte_of_string "T=23.7 H=55.2 B=88")) "000") " "
               = ["T=23.7"; "H=55.2"; "B=88"]) by (vm_compute; reflexivity).
  assert (Hn : Forall (numericPair decimalFloat) ["T=23.7"; "H=55.2"; "B=88"]).
  { repeat constructor.
    - exists "23.7". split; vm_compute; reflexivity.
    - exists "55.2". split; vm_compute; reflexivity.
    - exists "88". split; vm_compute; reflexivity. }
  assert (Hp : parseNotification decimalFloat
                 (list_byte_of_string "T=23.7 H=55.2 B=88")
               = Panic IndexOutOfRange) by (vm_compute; reflexivity).
  split; [exact Hs | split; [exact Hn | split; [exact Hp |]]].
  intros H.
  specialize (H (list_byte_of_string "T=23.7 H=55.2 B=88") "T=23.7" "H=55.2"
                ["B=88"] "23.7" "55.2" f23_7 f55_2 Hs Hn).
  rewrite Hp in H. discriminate H; vm_compute; reflexivity.
Qed.

End PollerFacts.

(** ** The pollers side by side *)

Module PollersFacts.
Import Pollers.

Lemma move_same (σ : system) (i : nat) (st : stage) : move σ i st i = st.
Proof. unfold move. now rewrite decide_True. Qed.

Lemma move_other (σ : system) (i j : nat) (st : stage) :
  j ≠ i → move σ i st j = at_ σ j.
Proof. intros H. unfold move. now rewrite decide_False. Qed.

Lemma next_inCycle (st st' : stage) :
  next st st' → inCycle st = true ∧ inCycle st' = true.
Proof. now intros []. Qed.

Ltac by_cases_on i j :=
  destruct (decide (j = i)) as [-> | ?];
  [rewrite ?move_same in * | rewrite ?move_other in * by done].

Lemma exclusive_init : exclusive init.
Proof. split; [done |]. cbn. discriminate. Qed.

Lemma exclusive_step (σ σ' : system) : exclusive σ → step σ σ' → exclusive σ'.
Proof.
  intros [Hfree Hone] Hstep.
  induction Hstep as [σ i Hi | σ i Hi Hm | σ i st Hn | σ i Hi]; split; cbn.
  - intros Hm k. by_cases_on i k; [done | now apply Hfree].
  - intros k l. by_cases_on i k; [done |]. by_cases_on i l; [done |]. apply Hone.
  - discriminate.
  - intros k l. by_cases_on i k; by_cases_on i l; try done.
    + intros _ Hl. now rewrite (Hfree Hm l) in Hl.
    + intros Hk. now rewrite (Hfree Hm k) in Hk.
    + intros Hk. now rewrite (Hfree Hm k) in Hk.
  - apply next_inCycle in Hn as [Hin _]. intros Hm. now rewrite (Hfree Hm i) in Hin.
  - apply next_inCycle in Hn as [Hin Hst].
    intros k l. by_cases_on i k; by_cases_on i l; try done.
    + intros _ Hl. exact (Hone i l Hin Hl).
    + intros Hk _. exact (Hone k i Hk Hin).
    + apply Hone.
  - intros _ k. by_cases_on i k; [done |].
    destruct (inCycle (at_ σ k)) eqn:Hk; [| done].
    assert (Hin : inCycle (at_ σ i) = true) by now rewrite Hi.
    now specialize (Hone k i Hk Hin).
  - assert (Hin : inCycle (at_ σ i) = true) by now rewrite Hi.
    intros k l. by_cases_on i k; [done |]. by_cases_on i l; [done |]. apply Hone.
Qed.

Lemma reachable_exclusive (σ : system) : reachable σ → exclusive σ.
Proof.
  induction 1 as [| σ σ' _ IH Hstep]; [apply exclusive_init |].
  exact (exclusive_step σ σ' IH Hstep).
Qed.

Lemma reachable_locked (σ : system) (i : nat) :
  reachable σ → inCycle (at_ σ i) = true → mutex σ = true.
Proof.
  intros [Hfree _]%reachable_exclusive Hin.
  destruct (mutex σ); [done |]. now rewrite (Hfree eq_refl i) in Hin.
Qed.



Lemma contended_reachable : reachable contended.
Proof.
  unfold contended.
  eapply reach_step; [eapply reach_step; [eapply reach_step;
    [apply reach_init |] |] |].
  - apply (step_call init 0%nat). reflexivity.
  - apply (step_call (System false (move init 0 Locking)) 1%nat). reflexivity.
  - apply (step_lock
             (System false (move (System false (move init 0 Locking)) 1 Locking))
             0%nat); reflexivity.
Qed.


End PollersFacts.

(* ===================================================================== *)
(** * Further behaviour of the two programs: proofs                    *)
(* ===================================================================== *)

Module DecoderLaws.
Import DecoderFacts.

Lemma backing_at_lookup (b : slice) (i : nat) :
  (i < cap b)%nat → (elems b ++ spare b) !! i = Some (backing_at b i).
Proof.
  unfold cap, backing_at. intros H.
  destruct (lookup_lt_is_Some_2 (elems b ++ spare b) i H) as [x Hx].
  now rewrite (nth_lookup_Some _ _ x00 _ Hx).
Qed.

Lemma len_le_cap (b : slice) : (len b <= cap b)%nat.
Proof. unfold len, cap. rewrite length_app. lia. Qed.

Lemma index_returns (b : slice) (i : nat) :
  returns (index b i) ↔ (i < len b)%nat.
Proof.
  unfold returns, index, len. split.
  - intros [x Hx]. destruct (elems b !! i) eqn:E; [| discriminate].
    now apply lookup_lt_Some in E.
  - intros H. destruct (lookup_lt_is_Some_2 _ _ H) as [x ->]. eauto.
Qed.

(** X1.  processAdvLYWSD03MMC never panics, whatever the payload. It
    returns the empty field set exactly when the payload is not 15 bytes
    long, and for a payload of 15 bytes a field set whose keys are
    exactly temperature, humidity and battery_pct. *)
Theorem processAdvLYWSD03MMC_total (b : slice) :
  returns (processAdvLYWSD03MMC b) ∧
  (processAdvLYWSD03MMC b = Ok ∅ ↔ len b ≠ 15%nat) ∧
  (∀ d, processAdvLYWSD03MMC b = Ok d → len b = 15%nat →
        dom d = {["temperature"; "humidity"; "battery_pct"]}).
Proof.
  unfold processAdvLYWSD03MMC.
  destruct (Nat.eqb_spec (len b) 15) as [Hlen | Hlen].
  - rewrite (Uint16_at b 6 (byte_at b 6) (byte_at b 7))
      by (apply byte_at_lookup; lia).
    rewrite (Uint16_at b 8 (byte_at b 8) (byte_at b 9))
      by (apply byte_at_lookup; lia).
    rewrite (index_lookup b 12 (byte_at b 12)) by (apply byte_at_lookup; lia).
    cbn [mbind run_bind mret run_ret]. split; [eexists; reflexivity |]. split.
    + split; [| done]. intros H.
      apply (f_equal (λ r : run Data,
                        match r with Ok m => m !! "temperature" | Panic _ => None end))
        in H.
      unfold mret, run_ret in H. cbv beta iota in H.
      now rewrite lookup_insert_eq, lookup_empty in H.
    + intros d [= <-] _. rewrite !dom_insert_L, dom_empty_L; set_solver.
  - split; [now eexists |]. split; [done |]. intros d _ H. contradiction.
Qed.

(** X2.  processAdvLYWSDCGQ returns, rather than panics, exactly when
    the payload has more than 13 bytes and, if byte 13 is 0x01, more
    than 14 bytes and, if byte 13 is 0x04, a capacity of at least 18:
    the slice expressions b[14:16] and b[16:18] are bounded by cap(b),
    not by len(b). *)
Theorem processAdvLYWSDCGQ_returns_iff (b : slice) :
  returns (processAdvLYWSDCGQ b) ↔
  (13 < len b)%nat ∧
  (byte_at b 13 = x01 → (14 < len b)%nat) ∧
  (byte_at b 13 = x04 → (18 <= cap b)%nat).
Proof.
  unfold processAdvLYWSDCGQ.
  destruct (Nat.le_gt_cases (len b) 13) as [Hshort | Hlong].
  { rewrite (index_short b 13 Hshort). cbn. split; [intros [d Hd]; discriminate | lia]. }
  rewrite (index_lookup b 13 (byte_at b 13)) by (apply byte_at_lookup; lia).
  cbn [mbind run_bind].
  destruct (Byte.byte_eq_dec (byte_at b 13) x01) as [H1 | H1].
  { rewrite H1. cbn [byte_val Byte.to_N Z.of_N].
    destruct (Nat.le_gt_cases (len b) 14) as [H14 | H14].
    - rewrite (index_short b 14 H14). cbn.
      split; [intros [d Hd]; discriminate | intros (_ & H & _); specialize (H eq_refl); lia].
    - rewrite (index_lookup b 14 (byte_at b 14)) by (apply byte_at_lookup; lia).
      cbn. split; [intros _; repeat split; [lia | done | discriminate] | eexists; reflexivity]. }
  destruct (Byte.byte_eq_dec (byte_at b 13) x04) as [H4 | H4].
  { rewrite H4. cbn [byte_val Byte.to_N Z.of_N].
    destruct (Nat.le_gt_cases 18 (cap b)) as [H18 | H18].
    - destruct (Uint16_within_cap b 14) as [t ->]; [lia |].
      destruct (Uint16_within_cap b 16 H18) as [h ->]. cbn.
      split; [intros _; repeat split; [lia | discriminate | done] | eexists; reflexivity].
    - rewrite (reslice_short b 16 18 H18).
      split; [| intros (_ & _ & H); specialize (H eq_refl); lia].
      intros [d Hd]. exfalso.
      destruct (reslice b 14 16 ≫= Uint16); cbn in Hd; discriminate. }
  rewrite (switch_other _ _ _ _ _ H1 H4).
  split; [intros _; repeat split; [lia | done | done] | eexists; reflexivity].
Qed.

Lemma holdsFrom_spec (f : Z → bool) (n : nat) :
  ∀ lo, holdsFrom f lo n = true → ∀ z, lo <= z < lo + Z.of_nat n → f z = true.
Proof.
  induction n as [| n IH]; intros lo H z Hz; [lia |].
  cbn [holdsFrom] in H. apply andb_true_iff in H as [H0 H1].
  destruct (Z.eq_dec z lo) as [-> | Hne]; [done |].
  apply (IH (lo + 1) H1). lia.
Qed.

(** Dividing a 16-bit reading by 100 or by 10 in float64 loses nothing:
    the reading is the integer nearest to the value times the scale. *)
Lemma reading_of_scaled (z : Z) :
  -32768 <= z < 65536 →
  reading 100 (float64 z / 100)%float = z ∧ reading 10 (float64 z / 10)%float = z.
Proof.
  intros Hz.
  assert (H : holdsFrom (λ z, (reading 100 (float64 z / 100)%float =? z) &&
                              (reading 10 (float64 z / 10)%float =? z))
                (-32768) (Z.to_nat 98304) = true) by (vm_compute; reflexivity).
  pose proof (holdsFrom_spec _ _ _ H z) as Hf. cbv beta in Hf.
  rewrite andb_true_iff, !Z.eqb_eq, Z2Nat.id in Hf by lia. apply Hf. lia.
Qed.

Lemma scaled_inj (z z' : Z) :
  -32768 <= z < 65536 → -32768 <= z' < 65536 →
  ((float64 z / 100)%float = (float64 z' / 100)%float → z = z') ∧
  ((float64 z / 10)%float = (float64 z' / 10)%float → z = z').
Proof.
  intros Hz Hz'. split; intros H.
  - rewrite <- (proj1 (reading_of_scaled z Hz)), H. apply reading_of_scaled, Hz'.
  - rewrite <- (proj2 (reading_of_scaled z Hz)), H. apply reading_of_scaled, Hz'.
Qed.

Lemma byte_val_inj (x y : byte) : byte_val x = byte_val y → x = y.
Proof.
  unfold byte_val. intros H%N2Z.inj.
  assert (E : Some x = Some y) by now rewrite <- !Byte.of_to_N, H.
  now injection E.
Qed.

Lemma le_uint16_range (lo hi : byte) : 0 <= le_uint16 lo hi < 65536.
Proof.
  unfold le_uint16. pose proof (byte_val_range lo). pose proof (byte_val_range hi). lia.
Qed.

Lemma le_int16_range (lo hi : byte) : -32768 <= le_int16 lo hi < 32768.
Proof.
  unfold le_int16. pose proof (le_uint16_range lo hi).
  destruct (Z.ltb_spec (le_uint16 lo hi) 32768); lia.
Qed.

Lemma le_uint16_inj (lo hi lo' hi' : byte) :
  le_uint16 lo hi = le_uint16 lo' hi' → lo = lo' ∧ hi = hi'.
Proof.
  unfold le_uint16. intros H.
  pose proof (byte_val_range lo). pose proof (byte_val_range hi).
  pose proof (byte_val_range lo'). pose proof (byte_val_range hi').
  split; apply byte_val_inj; lia.
Qed.

Lemma le_int16_inj (lo hi lo' hi' : byte) :
  le_int16 lo hi = le_int16 lo' hi' → lo = lo' ∧ hi = hi'.
Proof.
  unfold le_int16. intros H. apply le_uint16_inj.
  pose proof (le_uint16_range lo hi). pose proof (le_uint16_range lo' hi').
  destruct (Z.ltb_spec (le_uint16 lo hi) 32768);
    destruct (Z.ltb_spec (le_uint16 lo' hi') 32768); lia.
Qed.

(** The first decoder on a payload of 15 bytes. *)
Lemma processAdvLYWSD03MMC_15 (b : slice) :
  len b = 15%nat →
  processAdvLYWSD03MMC b =
    Ok (<["temperature" :=
            VFloat (float64 (le_int16 (byte_at b 6) (byte_at b 7)) / 100)%float]>
       (<["humidity" :=
            VFloat (float64 (le_uint16 (byte_at b 8) (byte_at b 9)) / 100)%float]>
       (<["battery_pct" := VInt (byte_val (byte_at b 12))]> ∅))).
Proof.
  intros Hlen. unfold processAdvLYWSD03MMC.
  rewrite (proj2 (Nat.eqb_eq _ _) Hlen).
  rewrite (Uint16_at b 6 (byte_at b 6) (byte_at b 7))
    by (apply byte_at_lookup; lia).
  rewrite (Uint16_at b 8 (byte_at b 8) (byte_at b 9))
    by (apply byte_at_lookup; lia).
  rewrite (index_lookup b 12 (byte_at b 12)) by (apply byte_at_lookup; lia).
  cbn [mbind run_bind mret run_ret]. now rewrite int16_signed.
Qed.

(** X3.  Two payloads of 15 bytes are decoded by processAdvLYWSD03MMC to
    the same field set exactly when they agree on bytes 6, 7, 8, 9 and
    12: the decoder ignores every other byte, and dividing the 16-bit
    readings by 100 in float64 maps no two readings to the same value. *)
Theorem processAdvLYWSD03MMC_same_iff (b b' : slice) :
  len b = 15%nat → len b' = 15%nat →
  (processAdvLYWSD03MMC b = processAdvLYWSD03MMC b' ↔
   byte_at b 6 = byte_at b' 6 ∧ byte_at b 7 = byte_at b' 7 ∧
   byte_at b 8 = byte_at b' 8 ∧ byte_at b 9 = byte_at b' 9 ∧
   byte_at b 12 = byte_at b' 12).
Proof.
  intros Hb Hb'. rewrite !processAdvLYWSD03MMC_15 by done. split.
  - intros H.
    assert (Hk : ∀ k : string,
      (<["temperature" :=
            VFloat (float64 (le_int16 (byte_at b 6) (byte_at b 7)) / 100)%float]>
       (<["humidity" :=
            VFloat (float64 (le_uint16 (byte_at b 8) (byte_at b 9)) / 100)%float]>
       (<["battery_pct" := VInt (byte_val (byte_at b 12))]> (∅ : Data)))) !! k =
      (<["temperature" :=
            VFloat (float64 (le_int16 (byte_at b' 6) (byte_at b' 7)) / 100)%float]>
       (<["humidity" :=
            VFloat (float64 (le_uint16 (byte_at b' 8) (byte_at b' 9)) / 100)%float]>
       (<["battery_pct" := VInt (byte_val (byte_at b' 12))]> (∅ : Data)))) !! k).
    { intros k.
      apply (f_equal (λ r : run Data, match r with Ok m => m | Panic _ => ∅ end)) in H.
      cbv beta iota in H. now rewrite H. }
    pose proof (Hk "temperature") as Ht. pose proof (Hk "humidity") as Hh.
    pose proof (Hk "battery_pct") as Hp. clear Hk H.
    rewrite !lookup_insert_eq in Ht.
    rewrite !(lookup_insert_ne _ "temperature" "humidity"), !lookup_insert_eq in Hh by done.
    rewrite !(lookup_insert_ne _ "temperature" "battery_pct"),
      !(lookup_insert_ne _ "humidity" "battery_pct"), !lookup_insert_eq in Hp by done.
    injection Ht as Ht. injection Hh as Hh. injection Hp as Hp.
    pose proof (le_int16_range (byte_at b 6) (byte_at b 7)).
    pose proof (le_int16_range (byte_at b' 6) (byte_at b' 7)).
    pose proof (le_uint16_range (byte_at b 8) (byte_at b 9)).
    pose proof (le_uint16_range (byte_at b' 8) (byte_at b' 9)).
    apply scaled_inj in Ht; [| lia | lia]. apply scaled_inj in Hh; [| lia | lia].
    apply le_int16_inj in Ht as [? ?]. apply le_uint16_inj in Hh as [? ?].
    apply byte_val_inj in Hp. done.
  - intros (-> & -> & -> & -> & ->). reflexivity.
Qed.


Lemma processAdvLYWSD03MMC_same_iff_witness :
  len atcPayload = 15%nat ∧ len atcPayloadElsewhere = 15%nat ∧
  atcPayload ≠ atcPayloadElsewhere ∧
  processAdvLYWSD03MMC atcPayload = processAdvLYWSD03MMC atcPayloadElsewhere.
Proof.
  split; [reflexivity | split; [reflexivity | split; [discriminate |]]].
  apply (proj2 (processAdvLYWSD03MMC_same_iff atcPayload atcPayloadElsewhere
                  eq_refl eq_refl)).
  repeat split.
Defined.

(** X4.  With more than 13 bytes, byte 13 equal to 0x04 and a capacity
    of at least 18, processAdvLYWSDCGQ returns temperature and humidity
    read from offsets 14 to 17 of the backing array of the slice, also
    when these offsets lie past len(b): there it decodes the bytes that
    follow the block in the underlying buffer. *)
Theorem processAdvLYWSDCGQ_reads_backing_array (b : slice) :
  (13 < len b)%nat → byte_at b 13 = x04 → (18 <= cap b)%nat →
  processAdvLYWSDCGQ b =
    Ok (<["temperature" :=
            VFloat (float64 (le_int16 (backing_at b 14) (backing_at b 15)) / 10)%float]>
       (<["humidity" :=
            VFloat (float64 (le_uint16 (backing_at b 16) (backing_at b 17)) / 10)%float]>
        ∅)) ∧
  (∀ i, (len b <= i)%nat → backing_at b i = nth (i - len b) (spare b) x00).
Proof.
  intros Hlen Hd Hcap. split.
  - unfold processAdvLYWSDCGQ.
    rewrite (index_lookup b 13 (byte_at b 13)) by (apply byte_at_lookup; lia).
    rewrite Hd. cbn [mbind run_bind byte_val Byte.to_N Z.of_N].
    rewrite (Uint16_at_backing b 14 (backing_at b 14) (backing_at b 15))
      by (apply backing_at_lookup; lia).
    rewrite (Uint16_at_backing b 16 (backing_at b 16) (backing_at b 17))
      by (apply backing_at_lookup; lia).
    cbn [mbind run_bind mret run_ret]. now rewrite int16_signed.
  - intros i Hi. unfold backing_at, len in *. now rewrite app_nth2.
Qed.

Lemma processAdvLYWSDCGQ_reads_backing_array_witness :
  len cgqCut = 14%nat ∧
  processAdvLYWSDCGQ cgqCut =
    Ok (<["temperature" := VFloat (float64 237 / 10)%float]>
       (<["humidity" := VFloat (float64 552 / 10)%float]> ∅)).
Proof.
  split; [reflexivity |].
  apply (processAdvLYWSDCGQ_reads_backing_array cgqCut); [cbn; lia | reflexivity | cbn; lia].
Defined.

Lemma hexPair_append (x : byte) (s : string) :
  (hexPair x +:+ s)%string =
  String (Listener.hexdigit (Byte.to_N x / 16))
    (String (Listener.hexdigit (Byte.to_N x mod 16)) s).
Proof. reflexivity. Qed.

Lemma spaced_length (l : list byte) :
  String.length (spaced l) = (3 * length l - 1)%nat.
Proof.
  induction l as [| x [| y r] IH]; [done | done |].
  change (spaced (x :: y :: r)) with (hexPair x +:+ String " " (spaced (y :: r)))%string.
  rewrite hexPair_append. cbn [String.length]. rewrite IH. cbn [length]. lia.
Qed.

Lemma formatHex_eq (b : slice) : Listener.formatHex b = Ok (spaced (elems b)).
Proof.
  unfold Listener.formatHex.
  induction (elems b) as [| x [| y r] IH]; [done | done |].
  change (spaced (x :: y :: r)) with (hexPair x +:+ String " " (spaced (y :: r)))%string.
  rewrite hexPair_append.
  change (Listener.EncodeToString (x :: y :: r))
    with (String (Listener.hexdigit (Byte.to_N x / 16))
            (String (Listener.hexdigit (Byte.to_N x mod 16))
               (Listener.EncodeToString (y :: r)))).
  cbn [Listener.formatHexFrom].
  change (Listener.EncodeToString (y :: r))
    with (String (Listener.hexdigit (Byte.to_N y / 16))
            (String (Listener.hexdigit (Byte.to_N y mod 16))
               (Listener.EncodeToString r))) at 1.
  cbv iota. now rewrite IH.
Qed.

(** X5.  formatHex never panics (the hex text has even length, so
    h[i:i+2] stays in range) and returns the bytes as two lower-case hex
    digits each, separated by single spaces with none at the end:
    3*len(b)-1 characters for a non-empty b, none for an empty one. *)
Theorem formatHex_spaced (b : slice) :
  Listener.formatHex b = Ok (spaced (elems b)) ∧
  String.length (spaced (elems b)) = (3 * len b - 1)%nat.
Proof. split; [apply formatHex_eq | apply spaced_length]. Qed.

End DecoderLaws.

Module ListenerMainFacts.
Import Listener ListenerMain.

Section WithToLower.
Variable ToLower : string → string.

Lemma configure_app (c1 c2 : list SensorConf) :
  ∀ t, configure ToLower (c1 ++ c2) t =
       match configure ToLower c1 t with
       | Some t' => configure ToLower c2 t'
       | None => None
       end.
Proof.
  induction c1 as [| s c1 IH]; intros t; [done |].
  cbn [app configure].
  destruct (String.eqb (Type_ s) "LYWSD03MMC"); [apply IH |].
  destruct (String.eqb (Type_ s) "LYWSDCGQ/01ZM"); [apply IH | done].
Qed.

Lemma configure_cons (s : SensorConf) (rest : list SensorConf)
    (t : gmap string sensor) :
  configure ToLower (s :: rest) t =
    match decoderOf (Type_ s) with
    | Some p => configure ToLower rest (<[ToLower (Mac s) := newSensor (Name s) p]> t)
    | None => None
    end.
Proof.
  cbn [configure]. unfold decoderOf.
  destruct (String.eqb (Type_ s) "LYWSD03MMC"); [done |].
  now destruct (String.eqb (Type_ s) "LYWSDCGQ/01ZM").
Qed.

(** X6.  The loop of the listener's main over conf.Sensors ends in
    log.Fatalf exactly when some entry has a type other than LYWSD03MMC
    and LYWSDCGQ/01ZM, wherever the entry stands in the list and
    whatever the table held before. *)
Theorem configure_fails_iff (conf : list SensorConf) (t : gmap string sensor) :
  configure ToLower conf t = None ↔
  ∃ s, s ∈ conf ∧ Type_ s ≠ "LYWSD03MMC" ∧ Type_ s ≠ "LYWSDCGQ/01ZM".
Proof.
  revert t. induction conf as [| s conf IH]; intros t.
  - cbn. split; [done | intros (s & Hs & _); inversion Hs].
  - rewrite configure_cons. unfold decoderOf.
    destruct (String.eqb_spec (Type_ s) "LYWSD03MMC") as [E1 | E1].
    { rewrite IH. split; intros (s' & Hs' & Hty).
      - exists s'. split; [now right | done].
      - apply elem_of_cons in Hs' as [-> | Hs']; [now destruct Hty | eauto]. }
    destruct (String.eqb_spec (Type_ s) "LYWSDCGQ/01ZM") as [E2 | E2].
    { rewrite IH. split; intros (s' & Hs' & Hty).
      - exists s'. split; [now right | done].
      - apply elem_of_cons in Hs' as [-> | Hs']; [now destruct Hty | eauto]. }
    split; [intros _ | done]. exists s. split; [now left | done].
Qed.

(** The table after a start-up that succeeds, entry by entry from the
    last. *)
Lemma configure_snoc (conf : list SensorConf) (s : SensorConf)
    (t t' : gmap string sensor) :
  configure ToLower (conf ++ [s]) t = Some t' →
  ∃ t0 p, configure ToLower conf t = Some t0 ∧ decoderOf (Type_ s) = Some p ∧
          t' = <[ToLower (Mac s) := newSensor (Name s) p]> t0.
Proof.
  rewrite configure_app. destruct (configure ToLower conf t) as [t0 |]; [| done].
  rewrite configure_cons. destruct (decoderOf (Type_ s)) as [p |]; [| done].
  cbn. intros [= <-]. eauto.
Qed.

(** X7.  After a start-up that succeeds, every sensor of the table has
    an empty accumulator; advFilter accepts an address exactly when it
    is the lower-cased Mac of some entry of conf.Sensors; and of several
    entries with the same lower-cased Mac the last one wins: the table
    holds the name and the decoder of the last entry with that address. *)
Theorem configure_lookup (conf : list SensorConf) (t : gmap string sensor)
    (addr : string) :
  configure ToLower conf ∅ = Some t →
  (∀ s, t !! addr = Some s → data s = ∅) ∧
  (advFilter t {| Addr := addr; ServiceDatas := [] |} = true ↔
   ∃ c, c ∈ conf ∧ ToLower (Mac c) = addr) ∧
  (∀ before c after,
     conf = before ++ c :: after → ToLower (Mac c) = addr →
     (∀ c', c' ∈ after → ToLower (Mac c') ≠ addr) →
     ∃ p, decoderOf (Type_ c) = Some p ∧ t !! addr = Some (newSensor (Name c) p)).
Proof.
  revert t. induction conf as [| c conf IH] using rev_ind; intros t Ht.
  - cbn in Ht. injection Ht as <-. split; [| split].
    + intros s Hs. now rewrite lookup_empty in Hs.
    + unfold advFilter. cbn. rewrite lookup_empty.
      split; [done | intros (c & Hc & _); inversion Hc].
    + intros before c after E. now destruct before.
  - apply configure_snoc in Ht as (t0 & p & Ht0 & Hp & ->).
    destruct (IH t0 Ht0) as (IHd & IHf & IHl). split; [| split].
    + intros s. destruct (decide (ToLower (Mac c) = addr)) as [E | E].
      * rewrite E, lookup_insert_eq. now intros [= <-].
      * rewrite lookup_insert_ne by done. apply IHd.
    + unfold advFilter in *. cbn in *.
      destruct (decide (ToLower (Mac c) = addr)) as [E | E].
      * rewrite E, lookup_insert_eq. split; [intros _ | done].
        exists c. split; [apply elem_of_app; right; now left | done].
      * rewrite lookup_insert_ne by done. rewrite IHf.
        split; intros (c' & Hc' & Hm).
        -- exists c'. split; [apply elem_of_app; now left | done].
        -- apply elem_of_app in Hc' as [Hc' | Hc']; [eauto |].
           apply list_elem_of_singleton in Hc' as ->. contradiction.
    + intros before c' after E Hm Hafter.
      destruct after as [| a after _] using rev_ind.
      * apply app_inj_tail in E as [-> ->].
        exists p. split; [done |]. now rewrite Hm, lookup_insert_eq.
      * rewrite app_comm_cons, app_assoc in E. apply app_inj_tail in E as [-> ->].
        assert (Ha : ToLower (Mac a) ≠ addr).
        { apply Hafter. apply elem_of_app. right. now left. }
        rewrite lookup_insert_ne by done.
        apply (IHl before c' after eq_refl Hm).
        intros c'' Hc''. apply Hafter. apply elem_of_app. now left.
Qed.

End WithToLower.

Lemma configure_lookup_witness :
  configure asciiLower exampleConf ∅ = Some exampleTable ∧
  ∃ p, decoderOf "LYWSD03MMC" = Some p ∧
       exampleTable !! "a4:c1:38:00:00:01" = Some (newSensor "lounge" p).
Proof.
  assert (H : configure asciiLower exampleConf ∅ = Some exampleTable)
    by reflexivity.
  split; [exact H |].
  apply (proj2 (proj2 (configure_lookup asciiLower exampleConf exampleTable
                         "a4:c1:38:00:00:01" H))
           [ {| Mac := "A4:C1:38:00:00:01"; Name := "living room";
                Type_ := "LYWSD03MMC" |};
             {| Mac := "4c:65:a8:00:00:02"; Name := "cellar";
                Type_ := "LYWSDCGQ/01ZM" |} ]
           {| Mac := "a4:c1:38:00:00:01"; Name := "lounge"; Type_ := "LYWSD03MMC" |}
           []); [reflexivity | reflexivity |].
  intros c' Hc'. inversion Hc'.
Defined.

End ListenerMainFacts.

Module ListenerLaws.
Import Listener ListenerFacts DecoderFacts ListenerMain.

Lemma flushOne_sensor (dryRun : bool) (write : Point → option string) (now : Z)
    (s : sensor) :
  (flushOne dryRun write now s).1.1 = Sensor (name s) ∅ (processor s).
Proof.
  unfold flushOne. rewrite flush_eq.
  now destruct (negb dryRun && (0 <? size (data s))%nat)%bool.
Qed.

Lemma flushOne_points (dryRun : bool) (write : Point → option string) (now : Z)
    (s : sensor) :
  (flushOne dryRun write now s).2 =
    if (negb dryRun && (0 <? size (data s))%nat)%bool
    then [NewPoint "environment" {["name" := name s]} (data s) now]
    else [].
Proof.
  unfold flushOne. rewrite flush_eq.
  now destruct (negb dryRun && (0 <? size (data s))%nat)%bool.
Qed.

Lemma flushTick_fold_lookup (dryRun : bool) (write : Point → option string)
    (now : string → Z) (l : list (string * sensor)) :
  ∀ acc k, NoDup l.*1 →
    (foldl (flushStep dryRun write now) acc l).1.1 !! k =
    match (list_to_map l : gmap string sensor) !! k with
    | Some s => Some (Sensor (name s) ∅ (processor s))
    | None => acc.1.1 !! k
    end.
Proof.
  induction l as [| [k0 s0] l IH]; intros acc k Hnd; [done |].
  apply NoDup_cons in Hnd as [Hk0 Hnd]. cbn [foldl list_to_map foldr].
  rewrite (IH _ k Hnd). unfold flushStep. cbn [fst snd].
  rewrite flushOne_sensor.
  destruct (decide (k = k0)) as [-> | Hne].
  - rewrite (proj1 (not_elem_of_list_to_map l k0) Hk0).
    now rewrite !lookup_insert_eq.
  - now rewrite !lookup_insert_ne by done.
Qed.

Lemma flushTick_table (dryRun : bool) (write : Point → option string)
    (now : string → Z) (sensors : gmap string sensor) :
  (flushTick dryRun write now sensors).1.1 =
  (λ s, Sensor (name s) ∅ (processor s)) <$> sensors.
Proof.
  apply map_eq. intros k. unfold flushTick.
  rewrite flushTick_fold_lookup by apply NoDup_fst_map_to_list.
  rewrite list_to_map_to_list, lookup_fmap. cbn [fst].
  now destruct (sensors !! k).
Qed.

(** X8.  One tick of the flush goroutine leaves the table with the same
    addresses and every sensor flushed: an empty accumulator, the same
    name and decoder. This holds in dry-run mode and outside it, and
    whatever WritePoint returns. *)
Theorem flushTick_drains_every_sensor (dryRun : bool)
    (write : Point → option string) (now : string → Z)
    (sensors : gmap string sensor) :
  let after := (flushTick dryRun write now sensors).1.1 in
  dom after = dom sensors ∧
  ∀ mac s, sensors !! mac = Some s →
           after !! mac = Some (flush s).2 ∧
           data (flush s).2 = ∅ ∧ name (flush s).2 = name s ∧
           processor (flush s).2 = processor s.
Proof.
  cbn zeta. rewrite flushTick_table. split; [apply dom_fmap_L |].
  intros mac s Hs. rewrite lookup_fmap, Hs, flush_eq. done.
Qed.

(** The points of a tick that writes. *)
Lemma written_elem_of (write : Point → option string) (now : string → Z)
    (sensors : gmap string sensor) (p : Point) :
  p ∈ written (flushTick false write now sensors) ↔
  ∃ mac s, sensors !! mac = Some s ∧ data s ≠ ∅ ∧
           p = NewPoint "environment" {["name" := name s]} (data s) (now mac).
Proof.
  rewrite flushTick_written, list_elem_of_In, in_flat_map. split.
  - intros ([mac s] & Hin & Hp). apply list_elem_of_In, elem_of_map_to_list in Hin.
    rewrite flushOne_points in Hp. cbn [fst snd negb andb] in Hp.
    destruct (Nat.ltb_spec 0 (size (data s))) as [Hs | Hs]; [| inversion Hp].
    destruct Hp as [<- | []]. exists mac, s. repeat split; [done |].
    intros E. rewrite E, map_size_empty in Hs. lia.
  - intros (mac & s & Hs & Hne & ->). exists (mac, s). split.
    + now apply list_elem_of_In, elem_of_map_to_list.
    + rewrite flushOne_points. cbn [fst snd negb andb].
      destruct (Nat.ltb_spec 0 (size (data s))) as [Hsz | Hsz]; [now left |].
      exfalso. apply Hne. apply map_size_empty_iff. lia.
Qed.

(** X9.  Outside dry-run mode a tick hands to WritePoint exactly the
    points of the sensors whose accumulator is not empty, one each:
    measurement environment, the tag name set to the sensor's name, the
    accumulator as fields and the clock reading as time; their number is
    the number of such sensors. *)
Theorem flushTick_points (write : Point → option string) (now : string → Z)
    (sensors : gmap string sensor) :
  (∀ p, p ∈ written (flushTick false write now sensors) ↔
        ∃ mac s, sensors !! mac = Some s ∧ data s ≠ ∅ ∧
                 p = NewPoint "environment" {["name" := name s]} (data s) (now mac)) ∧
  length (written (flushTick false write now sensors)) =
    length (filter (λ kv, (0 < size (data kv.2))%nat) (map_to_list sensors)).
Proof.
  split; [intros p; apply written_elem_of |]. rewrite flushTick_written.
  - induction (map_to_list sensors) as [| [mac s] l IH]; [done |].
    cbn [flat_map]. rewrite length_app, IH, flushOne_points, filter_cons.
    cbn [fst snd negb andb].
    destruct (Nat.ltb_spec 0 (size (data s))) as [Hs | Hs].
    + now rewrite decide_True by done.
    + now rewrite decide_False by lia.
Qed.

(** X10.  In dry-run mode a tick writes no point and still flushes every
    sensor: the readings collected up to the tick are discarded. *)
Theorem flushTick_dry_run (write : Point → option string) (now : string → Z)
    (sensors : gmap string sensor) :
  written (flushTick true write now sensors) = [] ∧
  (flushTick true write now sensors).1.1 = (λ s, (flush s).2) <$> sensors.
Proof.
  split.
  - rewrite flushTick_written.
    induction (map_to_list sensors) as [| kv l IH]; [done |].
    cbn [flat_map]. now rewrite IH, flushOne_points.
  - rewrite flushTick_table. apply map_fmap_ext. intros k s _. now rewrite flush_eq.
Qed.

(** X11.  A tick that follows a tick with no advertisement in between
    writes no point, whatever the modes, the clock readings and the
    write results of the two ticks. *)
Theorem flushTick_twice (d d' : bool) (w w' : Point → option string)
    (now now' : string → Z) (sensors : gmap string sensor) :
  written (flushTick d' w' now' (flushTick d w now sensors).1.1) = [].
Proof.
  rewrite flushTick_table, flushTick_written.
  assert (H : ∀ kv, kv ∈ map_to_list ((λ s, Sensor (name s) ∅ (processor s)) <$> sensors) →
                    (flushOne d' w' (now' kv.1) kv.2).2 = []).
  { intros [k s] (s0 & <- & _)%elem_of_map_to_list%lookup_fmap_Some.
    rewrite flushOne_points. cbn. now rewrite andb_false_r. }
  induction (map_to_list _) as [| kv l IH]; [done |].
  cbn [flat_map]. rewrite (H kv) by now left.
  apply IH. intros kv' Hkv'. apply H. now right.
Qed.


Lemma flushTick_log (dryRun : bool) (write : Point → option string)
    (now : string → Z) (sensors : gmap string sensor) :
  (flushTick dryRun write now sensors).1.2 =
  flat_map (λ kv, (flushOne dryRun write (now kv.1) kv.2).1.2) (map_to_list sensors).
Proof.
  unfold flushTick.
  generalize (map_to_list sensors) as l.
  assert (H : ∀ l acc,
    (foldl (flushStep dryRun write now) acc l).1.2 =
     acc.1.2 ++ flat_map (λ kv, (flushOne dryRun write (now kv.1) kv.2).1.2) l).
  { induction l as [| kv l IH]; intros acc; cbn [foldl flat_map].
    - now rewrite app_nil_r.
    - rewrite IH. unfold flushStep. cbn [fst snd]. now rewrite <- app_assoc. }
  intros l. now rewrite H.
Qed.

Lemma flushOne_log (dryRun : bool) (write : Point → option string) (now : Z)
    (s : sensor) :
  length (List.filter isFields (flushOne dryRun write now s).1.2) = 1%nat ∧
  length (List.filter isWriteError (flushOne dryRun write now s).1.2) =
    length (List.filter (failed write) (flushOne dryRun write now s).2).
Proof.
  unfold flushOne, failed. rewrite flush_eq.
  destruct (negb dryRun && (0 <? size (data s))%nat)%bool; cbn; [| done].
  now destruct (write _).
Qed.

(** X12.  What WritePoint returns changes neither the table after the
    tick nor the points handed over: a reading whose write fails has
    been drained already and is not written again. Every tick prints one
    fields line per configured sensor, and one write-error line per
    write that failed. *)
Theorem flushTick_write_errors (dryRun : bool) (write write' : Point → option string)
    (now : string → Z) (sensors : gmap string sensor) :
  (flushTick dryRun write now sensors).1.1 =
    (flushTick dryRun write' now sensors).1.1 ∧
  written (flushTick dryRun write now sensors) =
    written (flushTick dryRun write' now sensors) ∧
  length (List.filter isFields (flushTick dryRun write now sensors).1.2) =
    size sensors ∧
  length (List.filter isWriteError (flushTick dryRun write now sensors).1.2) =
    length (List.filter (failed write) (written (flushTick dryRun write now sensors))).
Proof.
  split; [now rewrite !flushTick_table |].
  rewrite !flushTick_written, flushTick_log.
  rewrite <- length_map_to_list.
  induction (map_to_list sensors) as [| kv l (IHw & IHf & IHe)]; [done |].
  cbn [flat_map length].
  rewrite !List.filter_app, !length_app, IHf, IHe.
  destruct (flushOne_log dryRun write (now kv.1) kv.2) as [-> ->].
  rewrite !flushOne_points, IHw. done.
Qed.

Lemma processAdv_name (s s1 : sensor) (b : slice) :
  processAdv s b = Ok s1 → name s1 = name s.
Proof.
  unfold processAdv. destruct (processor s b) as [fs | p]; [| discriminate].
  cbn. now intros [= <-].
Qed.

Lemma advLoop_lines (sds : list ServiceData) :
  ∀ (s : sensor) (log : list LogLine),
    match decodeAndMergeEach s (SData <$> sds) with
    | Ok s' => advLoop true (Some s) sds log =
                 Ok (Some s', log ++ (advLine (name s) <$> sds))
    | Panic p => advLoop true (Some s) sds log = Panic p
    end.
Proof.
  induction sds as [| sd sds IH]; intros s log.
  - cbn. now rewrite app_nil_r.
  - cbn [fmap list_fmap decodeAndMergeEach advLoop].
    rewrite DecoderLaws.formatHex_eq. cbn [mbind run_bind].
    destruct (processAdv s (SData sd)) as [s1 | p] eqn:E; cbn [mbind run_bind]; [| done].
    specialize (IH s1 (log ++ [LogAdv (name s) (UUID sd) (len (SData sd))
                                 (spaced (elems (SData sd)))])).
    destruct (decodeAndMergeEach s1 (SData <$> sds)) as [s' | p]; [| done].
    rewrite IH, (processAdv_name s s1 _ E), <- app_assoc. done.
Qed.

(** X17.  Verbose mode changes what is printed and nothing else: without
    it the handler prints nothing; with it the handler ends in the same
    table, or the same panic, and prints one line per service-data
    block, with the sensor's name, the UUID, the length and the bytes in
    hex. *)
Theorem verbose_only_logs (sensors : gmap string sensor) (a : Advertisement) :
  match scanDeliver false sensors a with
  | Ok (sensors', log) =>
      log = [] ∧
      scanDeliver true sensors a =
        Ok (sensors', match sensors !! Addr a with
                      | Some s => advLine (name s) <$> ServiceDatas a
                      | None => []
                      end)
  | Panic p => scanDeliver true sensors a = Panic p
  end.
Proof.
  unfold scanDeliver, advFilter, advHandler.
  destruct (sensors !! Addr a) as [s |] eqn:E; [| done].
  pose proof (advLoop_decodeAndMergeEach false (ServiceDatas a) s []) as Hf.
  pose proof (advLoop_lines (ServiceDatas a) s []) as Ht.
  destruct (decodeAndMergeEach s (SData <$> ServiceDatas a)) as [s' | p].
  - destruct Hf as (log' & -> & Hl). rewrite Ht. cbn. split; [now apply Hl | done].
  - now rewrite Hf, Ht.
Qed.

(** X13.  After two merges a field has the value of the later field set
    if that names it, else the value of the earlier one, else what the
    accumulator held; merging two field sets with no common key into a
    flushed accumulator and flushing returns their union; merging
    changes neither the name nor the decoder. *)
Theorem merge_overwrites (s : sensor) (F1 F2 : Data) (k : string) :
  data (merge F2 (merge F1 s)) !! k =
    match F2 !! k with
    | Some v => Some v
    | None => match F1 !! k with
              | Some v => Some v
              | None => data s !! k
              end
    end ∧
  (F1 ##ₘ F2 → (flush (merge F2 (merge F1 (flush s).2))).1 = F1 ∪ F2) ∧
  name (merge F2 (merge F1 s)) = name s ∧
  processor (merge F2 (merge F1 s)) = processor s.
Proof.
  rewrite !merge_data. split; [| split; [| done]].
  - rewrite !lookup_union. destruct (F2 !! k), (F1 !! k), (data s !! k); done.
  - intros Hd. rewrite !flush_eq. cbn [fst snd]. rewrite !merge_data.
    cbn [data]. rewrite (right_id_L ∅ (∪)). now apply map_union_comm.
Qed.

(** The handler on an advertisement of a configured sensor. *)
Lemma scanDeliver_configured (verbose : bool) (sensors : gmap string sensor)
    (a : Advertisement) (s : sensor) :
  sensors !! Addr a = Some s →
  match decodeAndMergeEach s (SData <$> ServiceDatas a) with
  | Ok s' => ∃ log, scanDeliver verbose sensors a = Ok (<[Addr a := s']> sensors, log)
  | Panic p => scanDeliver verbose sensors a = Panic p
  end.
Proof.
  intros Hs. unfold scanDeliver, advFilter, advHandler. rewrite Hs.
  pose proof (advLoop_decodeAndMergeEach verbose (ServiceDatas a) s []) as H.
  destruct (decodeAndMergeEach s (SData <$> ServiceDatas a)) as [s' | p].
  - destruct H as (log & -> & _). cbn. eauto.
  - now rewrite H.
Qed.

(** X14.  For an advertisement of a configured sensor, if the sensor's
    decoder returns on each service-data block, the handler leaves the
    table with that sensor's accumulator extended by the decoded field
    sets in the order of the blocks, a later block overwriting the
    fields of an earlier one; name and decoder are kept. *)
Theorem scanDeliver_merges_in_order (verbose : bool)
    (sensors : gmap string sensor) (a : Advertisement) (s : sensor)
    (Fs : list Data) :
  sensors !! Addr a = Some s →
  Forall2 (λ sd F, processor s (SData sd) = Ok F) (ServiceDatas a) Fs →
  ∃ log, scanDeliver verbose sensors a =
         Ok (<[Addr a := Sensor (name s) (foldl (λ acc F, F ∪ acc) (data s) Fs)
                                (processor s)]> sensors, log).
Proof.
  intros Hs HF. pose proof (scanDeliver_configured verbose sensors a s Hs) as H.
  rewrite (decodeAndMergeEach_all _ s Fs) in H; [exact H |].
  now apply Forall2_fmap_l.
Qed.

(** X15.  An advertisement from a configured sensor of type
    LYWSDCGQ/01ZM whose first service-data block has at most 13 bytes
    passes advFilter and makes advHandler panic with an index out of
    range. *)
Theorem scanDeliver_short_block_panics (verbose : bool)
    (sensors : gmap string sensor) (a : Advertisement) (s : sensor)
    (sd : ServiceData) (rest : list ServiceData) :
  sensors !! Addr a = Some s →
  processor s = processAdvLYWSDCGQ →
  ServiceDatas a = sd :: rest →
  (len (SData sd) <= 13)%nat →
  advFilter sensors a = true ∧
  scanDeliver verbose sensors a = Panic IndexOutOfRange.
Proof.
  intros Hs Hp Hsd Hlen. split; [unfold advFilter; now rewrite Hs |].
  pose proof (scanDeliver_configured verbose sensors a s Hs) as H.
  rewrite Hsd in H. cbn [fmap list_fmap decodeAndMergeEach] in H.
  unfold processAdv in H. rewrite Hp in H. unfold processAdvLYWSDCGQ in H.
  rewrite (index_short _ 13 Hlen) in H. exact H.
Qed.

Lemma scanDeliver_merges_in_order_witness :
  exampleTable !! Addr twoBlocks = Some lounge ∧
  ∃ F1 F2 log,
    processAdvLYWSD03MMC atcPayload = Ok F1 ∧
    processAdvLYWSD03MMC atcPayloadElsewhere = Ok F2 ∧
    scanDeliver true exampleTable twoBlocks =
      Ok (<[Addr twoBlocks := Sensor "lounge" (F2 ∪ (F1 ∪ ∅)) processAdvLYWSD03MMC]>
            exampleTable, log).
Proof.
  split; [reflexivity |].
  pose proof (DecoderLaws.processAdvLYWSD03MMC_15 atcPayload eq_refl) as H1.
  pose proof (DecoderLaws.processAdvLYWSD03MMC_15 atcPayloadElsewhere eq_refl) as H2.
  edestruct (scanDeliver_merges_in_order true exampleTable twoBlocks lounge)
    as [log Hlog];
    [reflexivity | constructor; [exact H1 | constructor; [exact H2 | constructor]] |].
  eexists _, _, log. split; [exact H1 | split; [exact H2 | exact Hlog]].
Defined.

Lemma scanDeliver_short_block_panics_witness :
  exampleTable !! Addr fromStranger = Some cellar ∧
  scanDeliver true exampleTable fromStranger = Panic IndexOutOfRange.
Proof.
  split; [reflexivity |].
  refine (proj2 (scanDeliver_short_block_panics true exampleTable fromStranger
                   cellar {| UUID := "fe95"; SData := bytes [x50; x20] |} []
                   _ _ _ _)); [reflexivity | reflexivity | reflexivity | cbn; lia].
Defined.

(** X16.  An advertisement of a configured sensor followed by a tick
    outside dry-run mode: the points written are the one for that
    sensor, carrying what its accumulator held with the decoded blocks
    merged on top (if that is not empty), and the points of the other
    sensors, which are what they would have been without the
    advertisement. *)
Theorem scan_then_flush (verbose : bool) (write : Point → option string)
    (now : string → Z) (sensors : gmap string sensor) (a : Advertisement)
    (s : sensor) (Fs : list Data) :
  sensors !! Addr a = Some s →
  Forall2 (λ sd F, processor s (SData sd) = Ok F) (ServiceDatas a) Fs →
  ∃ sensors' log,
    scanDeliver verbose sensors a = Ok (sensors', log) ∧
    ∀ p, p ∈ written (flushTick false write now sensors') ↔
         (foldl (λ acc F, F ∪ acc) (data s) Fs ≠ ∅ ∧
          p = NewPoint "environment" {["name" := name s]}
                (foldl (λ acc F, F ∪ acc) (data s) Fs) (now (Addr a))) ∨
         (∃ mac s0, mac ≠ Addr a ∧ sensors !! mac = Some s0 ∧ data s0 ≠ ∅ ∧
                    p = NewPoint "environment" {["name" := name s0]} (data s0)
                          (now mac)).
Proof.
  intros Hs HF. pose proof (scanDeliver_configured verbose sensors a s Hs) as H.
  rewrite (decodeAndMergeEach_all _ s Fs) in H by now apply Forall2_fmap_l.
  destruct H as [log Hlog]. eexists _, log. split; [exact Hlog |].
  intros p. rewrite written_elem_of. split.
  - intros (mac & s0 & Hl & Hne & ->).
    destruct (decide (mac = Addr a)) as [-> | Hmac].
    + rewrite lookup_insert_eq in Hl. injection Hl as <-. left. done.
    + rewrite lookup_insert_ne in Hl by done. right. exists mac, s0. done.
  - intros [[Hne ->] | (mac & s0 & Hmac & Hl & Hne & ->)].
    + eexists (Addr a), _. rewrite lookup_insert_eq. split; [reflexivity |]. done.
    + exists mac, s0. rewrite lookup_insert_ne by done. done.
Qed.

Lemma scan_then_flush_witness :
  exampleTable !! Addr twoBlocks = Some lounge ∧
  ∃ F1 F2 sensors' log,
    processAdvLYWSD03MMC atcPayload = Ok F1 ∧
    processAdvLYWSD03MMC atcPayloadElsewhere = Ok F2 ∧
    scanDeliver true exampleTable twoBlocks = Ok (sensors', log) ∧
    NewPoint "environment" {["name" := "lounge"]} (F2 ∪ (F1 ∪ ∅)) 60
      ∈ written (flushTick false (λ _, None) (λ _, 60) sensors').
Proof.
  split; [reflexivity |].
  pose proof (DecoderLaws.processAdvLYWSD03MMC_15 atcPayload eq_refl) as H1.
  pose proof (DecoderLaws.processAdvLYWSD03MMC_15 atcPayloadElsewhere eq_refl) as H2.
  edestruct (scan_then_flush true (λ _, None) (λ _, 60) exampleTable twoBlocks lounge)
    as (sensors' & log & Hlog & Hp);
    [reflexivity | constructor; [exact H1 | constructor; [exact H2 | constructor]] |].
  eexists _, _, sensors', log.
  split; [exact H1 | split; [exact H2 | split; [exact Hlog |]]].
  apply Hp. left. split; [| reflexivity].
  cbn [foldl data lounge newSensor]. rewrite <- insert_union_l.
  apply insert_non_empty.
Defined.

End ListenerLaws.

Module PollerLaws.
Import Poller PollerFacts PollerCases.

Section WithParseFloat.
Variable ParseFloat : string → float * option error.

(** X18.  A poll cycle that returns either sends exactly one Result,
    carrying the sensor's name, and logs nothing, or sends nothing and
    logs exactly one line. *)
Theorem poll_sends_or_logs (s : Sensor.t) (c : Cycle) (log : list LogLine)
    (res : option Result.t) :
  poll ParseFloat s c = Ok (log, res) →
  (∃ r, res = Some r ∧ log = [] ∧ Result.Name r = Sensor.Name s) ∨
  (res = None ∧ ∃ l, log = [l]).
Proof.
  unfold poll. destruct (dial c); [intros [= <- <-]; eauto |].
  destruct (discover c).2; [intros [= <- <-]; eauto |].
  destruct (readBatteryLevel c (discover c).1) as [[pct [e |]] | p];
    cbn [mbind run_bind fst snd]; [intros [= <- <-]; eauto | | discriminate].
  destruct (readTemperatureAndHumidity ParseFloat s c (discover c).1)
    as [[th [e |]] | p]; cbn [mbind run_bind fst snd];
    [intros [= <- <-]; eauto | | discriminate].
  intros [= <- <-]. left. eauto.
Qed.

(** X19.  The first call that fails ends the cycle with one log line and
    no Result: a dial error is logged with the sensor's name, a
    discovery error and a battery read error are logged as they are, and
    when no notification arrives before the timeout the error timed out
    waiting for notification is logged. *)
Theorem poll_first_failure (s : Sensor.t) (c : Cycle) (e : error) :
  (dial c = Some e →
   poll ParseFloat s c = Ok ([LogDialError (Sensor.Name s) e], None)) ∧
  (dial c = None → (discover c).2 = Some e →
   poll ParseFloat s c = Ok ([LogError e], None)) ∧
  (dial c = None → (discover c).2 = None → batteryPct (discover c).1 = true →
   (readCharacteristic c).2 = Some e →
   poll ParseFloat s c = Ok ([LogError e], None)) ∧
  (awaitsNotification c → notification c = None →
   poll ParseFloat s c =
     Ok ([LogError (ErrorString "timed out waiting for notification")], None)).
Proof.
  repeat split.
  - intros Hd. unfold poll. now rewrite Hd.
  - intros Hd He. unfold poll. now rewrite Hd, He.
  - intros Hd He Hb Hr. unfold poll, readBatteryLevel. now rewrite Hd, He, Hb, Hr.
  - intros Hc Hn.
    destruct (poll_awaits ParseFloat s c Hc) as (pct & x & rest & _ & _ & ->).
    now rewrite Hn.
Qed.

(** X20.  After a dial and a discovery that succeed, poll panics on a
    nil type assertion when the profile lacks the battery
    characteristic, with an index out of range when the battery read
    returns no byte and no error, and on a nil type assertion when the
    battery is read and the profile lacks the temperature and humidity
    characteristic. *)
Theorem poll_panics (s : Sensor.t) (c : Cycle) :
  dial c = None → (discover c).2 = None →
  (batteryPct (discover c).1 = false →
   poll ParseFloat s c = Panic NilTypeAssertion) ∧
  (batteryPct (discover c).1 = true → readCharacteristic c = ([], None) →
   poll ParseFloat s c = Panic IndexOutOfRange) ∧
  (batteryPct (discover c).1 = true → (readCharacteristic c).2 = None →
   (readCharacteristic c).1 ≠ [] → temperatureAndHumidity (discover c).1 = false →
   poll ParseFloat s c = Panic NilTypeAssertion).
Proof.
  intros Hd He. unfold poll, readBatteryLevel, readTemperatureAndHumidity.
  rewrite Hd, He. repeat split.
  - now intros ->.
  - now intros -> ->.
  - intros -> Hr Hne ->. rewrite Hr.
    destruct (readCharacteristic c).1 as [| x rest]; [done |]. reflexivity.
Qed.

Lemma parsePairs_no_equals (i : nat) (bad : string) (rest : list string)
    (res : float * float) :
  has_char "=" bad = false →
  parsePairs ParseFloat i (bad :: rest) res = Panic IndexOutOfRange.
Proof.
  intros H. cbn [parsePairs]. now rewrite (Split_clean "=" bad H).
Qed.

Lemma poll_on_pairs (s : Sensor.t) (c : Cycle) (req : list byte)
    (pairs : list string) :
  awaitsNotification c → notification c = Some req →
  Split (Trim (string_of_list_byte req) "000") " " = pairs →
  ∃ pct x rest, readCharacteristic c = (x :: rest, None) ∧ pct = byte_val x ∧
    poll ParseFloat s c =
      q ← parsePairs ParseFloat 0 pairs (0, 0)%float;
      match q.2 with
      | Some err => Ok ([LogError err], None)
      | None => Ok ([], Some (Result.Make (Sensor.Name s) (start_time c)
                                q.1.1 q.1.2 pct (Sub (end_time c) (start_time c))))
      end.
Proof.
  intros Hc Hn Hp.
  destruct (poll_awaits ParseFloat s c Hc) as (pct & x & rest & Hr & Hpct & ->).
  exists pct, x, rest. split; [done | split; [done |]].
  rewrite Hn. unfold parseNotification. now rewrite Hp.
Qed.

(** X21.  In a cycle that gets as far as the notification, a pair
    without '=' that comes after at most two numeric pairs makes poll
    panic with an index out of range (parts[1]); so does a notification
    that consists of NUL bytes only, or is empty. *)
Theorem poll_pair_without_equals_panics (s : Sensor.t) (c : Cycle) :
  awaitsNotification c →
  (∀ req good bad rest,
     notification c = Some req →
     Split (Trim (string_of_list_byte req) "000") " " = good ++ bad :: rest →
     Forall (numericPair ParseFloat) good → (length good <= 2)%nat →
     has_char "=" bad = false →
     poll ParseFloat s c = Panic IndexOutOfRange) ∧
  (∀ n, notification c = Some (list_byte_of_string (nuls n)) →
        poll ParseFloat s c = Panic IndexOutOfRange).
Proof.
  intros Hc.
  assert (Hgen : ∀ req good bad rest,
     notification c = Some req →
     Split (Trim (string_of_list_byte req) "000") " " = good ++ bad :: rest →
     Forall (numericPair ParseFloat) good → (length good <= 2)%nat →
     has_char "=" bad = false →
     poll ParseFloat s c = Panic IndexOutOfRange).
  { intros req good bad rest Hn Hs Hg Hl Hb.
    destruct (poll_on_pairs s c req _ Hc Hn Hs) as (pct & x & tl & _ & _ & ->).
    destruct (parsePairs_numeric_prefix ParseFloat good (bad :: rest) 0
                (0, 0)%float Hg Hl) as [res' ->].
    now rewrite parsePairs_no_equals. }
  split; [exact Hgen |]. intros n Hn.
  apply (Hgen _ [] EmptyString [] Hn); [| constructor | cbn; lia | done].
  rewrite string_of_list_byte_of_string. unfold Trim.
  replace (nuls n) with (EmptyString +:+ nuls n)%string by done.
  now rewrite TrimRight_app_nuls.
Qed.

(** X22.  In a cycle that gets as far as the notification, a
    notification with three or more pairs of which the first three are
    numeric makes poll panic with an index out of range (res[2] of a
    [2]float64). *)
Theorem poll_third_pair_panics (s : Sensor.t) (c : Cycle) (req : list byte)
    (p1 p2 p3 : string) (rest : list string) :
  awaitsNotification c → notification c = Some req →
  Split (Trim (string_of_list_byte req) "000") " " = p1 :: p2 :: p3 :: rest →
  numericPair ParseFloat p1 → numericPair ParseFloat p2 →
  numericPair ParseFloat p3 →
  poll ParseFloat s c = Panic IndexOutOfRange.
Proof.
  intros Hc Hn Hs H1 H2 (w & Hw & Hpf).
  destruct (poll_on_pairs s c req _ Hc Hn Hs) as (pct & x & tl & _ & _ & ->).
  destruct (parsePairs_numeric_prefix ParseFloat [p1; p2] (p3 :: rest) 0
              (0, 0)%float) as [res' E]; [repeat constructor; done | cbn; lia |].
  change (p1 :: p2 :: p3 :: rest) with ([p1; p2] ++ p3 :: rest). rewrite E.
  cbn [parsePairs Nat.add length]. unfold at_index. rewrite Hw.
  cbn [mbind run_bind]. now destruct (ParseFloat w) as [v [e |]].
Qed.

(** X23.  In a cycle that gets as far as the notification, a
    notification with a single numeric pair is accepted: poll sends a
    Result with that value as the temperature and 0 as the humidity, and
    logs nothing. *)
Theorem poll_single_pair (s : Sensor.t) (c : Cycle) (req : list byte)
    (p v : string) (x : float) :
  awaitsNotification c → notification c = Some req →
  Split (Trim (string_of_list_byte req) "000") " " = [p] →
  Split p "=" !! 1%nat = Some v → ParseFloat v = (x, None) →
  ∃ r, poll ParseFloat s c = Ok ([], Some r) ∧
       Result.Temperature r = x ∧ Result.Humidity r = 0%float.
Proof.
  intros Hc Hn Hs Hv Hx.
  destruct (poll_on_pairs s c req _ Hc Hn Hs) as (pct & y & tl & _ & _ & ->).
  cbn [parsePairs]. unfold at_index. rewrite Hv. cbn [mbind run_bind].
  rewrite Hx. cbn. eauto.
Qed.

(** X24.  For a Result sent by a cycle whose end reading is not before
    its start reading (and less than 2^63 ns after it), the poll
    duration is end minus start, and the point main builds from the
    Result has exactly the fields temperature, humidity, battery_pct and
    poll_duration_ms, the last being the duration in whole milliseconds,
    and the tag name set to the sensor's name. *)
Theorem poll_duration (s : Sensor.t) (c : Cycle) (log : list LogLine)
    (r : Result.t) :
  poll ParseFloat s c = Ok (log, Some r) →
  start_time c <= end_time c → end_time c - start_time c <= maxDuration →
  Result.PollDuration r = end_time c - start_time c ∧
  fields (resultPoint r) !! "poll_duration_ms" =
    Some (VInt ((end_time c - start_time c) / 1000000)) ∧
  dom (fields (resultPoint r)) =
    {["temperature"; "humidity"; "battery_pct"; "poll_duration_ms"]} ∧
  tags (resultPoint r) = {["name" := Sensor.Name s]}.
Proof.
  intros (th & pct & _ & ->)%poll_sends Hle Hmax. cbn.
  assert (E : Sub (end_time c) (start_time c) = end_time c - start_time c).
  { unfold Sub, minDuration. unfold maxDuration in *. lia. }
  rewrite E. split; [done |]. split.
  - rewrite !lookup_insert_ne by done. rewrite lookup_insert_eq.
    unfold Milliseconds. now rewrite Z.quot_div_nonneg by lia.
  - split; [| done]. rewrite !dom_insert_L, dom_empty_L. set_solver.
Qed.

End WithParseFloat.

Lemma notified_awaits (text : string) : awaitsNotification (notified text).
Proof. repeat split; cbn; congruence. Qed.

Lemma poll_sends_or_logs_witness :
  poll decimalFloat bedroom goodCycle =
    Ok ([], Some (Result.Make "bedroom" 1000000000 f23_7 f55_2 88 3000000000)) ∧
  ((∃ r, Some (Result.Make "bedroom" 1000000000 f23_7 f55_2 88 3000000000) = Some r ∧
         @nil LogLine = [] ∧ Result.Name r = Sensor.Name bedroom) ∨
   (Some (Result.Make "bedroom" 1000000000 f23_7 f55_2 88 3000000000) = None ∧
    ∃ l : LogLine, [] = [l])).
Proof.
  split; [exact goodCycle_result |].
  exact (poll_sends_or_logs decimalFloat bedroom goodCycle _ _ goodCycle_result).
Defined.

Lemma poll_panics_witness :
  dial noBattery = None ∧ batteryPct (discover noBattery).1 = false ∧
  poll decimalFloat bedroom noBattery = Panic NilTypeAssertion.
Proof.
  split; [reflexivity | split; [reflexivity |]].
  exact (proj1 (poll_panics decimalFloat bedroom noBattery eq_refl eq_refl) eq_refl).
Defined.

Lemma poll_pair_without_equals_panics_witness :
  awaitsNotification (notified "T=23.7 H") ∧
  poll decimalFloat bedroom (notified "T=23.7 H") = Panic IndexOutOfRange.
Proof.
  split; [apply notified_awaits |].
  refine (proj1 (poll_pair_without_equals_panics decimalFloat bedroom
                   (notified "T=23.7 H") (notified_awaits _))
            (list_byte_of_string "T=23.7 H") ["T=23.7"] "H" [] _ _ _ _ _).
  - reflexivity.
  - vm_compute. reflexivity.
  - constructor; [| constructor]. exists "23.7". split; vm_compute; reflexivity.
  - cbn. lia.
  - reflexivity.
Defined.

Lemma poll_third_pair_panics_witness :
  awaitsNotification (notified "T=23.7 H=55.2 B=88") ∧
  poll decimalFloat bedroom (notified "T=23.7 H=55.2 B=88") = Panic IndexOutOfRange.
Proof.
  split; [apply notified_awaits |].
  refine (poll_third_pair_panics decimalFloat bedroom
            (notified "T=23.7 H=55.2 B=88")
            (list_byte_of_string "T=23.7 H=55.2 B=88")
            "T=23.7" "H=55.2" "B=88" [] (notified_awaits _) _ _ _ _ _).
  - reflexivity.
  - vm_compute. reflexivity.
  - exists "23.7". split; vm_compute; reflexivity.
  - exists "55.2". split; vm_compute; reflexivity.
  - exists "88". split; vm_compute; reflexivity.
Defined.

Lemma poll_single_pair_witness :
  awaitsNotification (notified "T=23.7") ∧
  ∃ r, poll decimalFloat bedroom (notified "T=23.7") = Ok ([], Some r) ∧
       Result.Temperature r = f23_7 ∧ Result.Humidity r = 0%float.
Proof.
  split; [apply notified_awaits |].
  refine (poll_single_pair decimalFloat bedroom (notified "T=23.7")
            (list_byte_of_string "T=23.7") "T=23.7" "23.7" f23_7
            (notified_awaits _) _ _ _ _).
  - reflexivity.
  - vm_compute. reflexivity.
  - vm_compute. reflexivity.
  - exact (proj1 decimalFloat_examples).
Defined.

Lemma poll_duration_witness :
  poll decimalFloat bedroom goodCycle =
    Ok ([], Some (Result.Make "bedroom" 1000000000 f23_7 f55_2 88 3000000000)) ∧
  Result.PollDuration (Result.Make "bedroom" 1000000000 f23_7 f55_2 88 3000000000)
    = end_time goodCycle - start_time goodCycle.
Proof.
  split; [exact goodCycle_result |].
  refine (proj1 (poll_duration decimalFloat bedroom goodCycle [] _
                   goodCycle_result _ _)).
  - cbn. lia.
  - unfold maxDuration. cbn. lia.
Defined.

End PollerLaws.

Module PollersLaws.
Import Pollers PollersFacts.

Lemma held_step (σ σ' : system) :
  (mutex σ = true → ∃ i, inCycle (at_ σ i) = true) → step σ σ' →
  mutex σ' = true → ∃ i, inCycle (at_ σ' i) = true.
Proof.
  intros Hheld Hstep.
  destruct Hstep as [σ i Hi | σ i Hi Hm | σ i st Hn | σ i Hi]; intros Hm'; cbn in *.
  - destruct (Hheld Hm') as [j Hj]. exists j.
    by_cases_on i j; [now rewrite Hi in Hj | done].
  - exists i. now rewrite move_same.
  - exists i. rewrite move_same. now apply next_inCycle in Hn.
  - discriminate.
Qed.

Lemma reachable_held (σ : system) :
  reachable σ → mutex σ = true → ∃ i, inCycle (at_ σ i) = true.
Proof.
  induction 1 as [| σ σ' Hr IH Hstep]; [discriminate |].
  exact (held_step σ σ' IH Hstep).
Qed.

Lemma inCycle_moves (st : stage) :
  inCycle st = true → st = Unlocking ∨ ∃ st', next st st'.
Proof.
  destruct st; try discriminate; intros _; [right..| left; done]; eexists; constructor.
Qed.

Lemma next_remaining (st st' : stage) :
  next st st' → (remaining st' < remaining st <= 5)%nat.
Proof. intros []; cbn; lia. Qed.

(** X25.  In the interleaving model of the poller goroutines (each call
    of poll's body returns), in every reachable state the mutex is held
    exactly when some sensor is inside its cycle, and for a sensor
    waiting in Lock either the mutex is free and Lock can return, or
    another sensor holds it and that sensor can step, each step of
    poll's body leaving fewer calls before the deferred Unlock. *)
Theorem lock_is_released (σ : system) :
  reachable σ →
  (mutex σ = true ↔ ∃ i, inCycle (at_ σ i) = true) ∧
  (∀ j, at_ σ j = Locking →
        (mutex σ = false ∧ step σ (System true (move σ j Dialing))) ∨
        (∃ i, i ≠ j ∧ inCycle (at_ σ i) = true ∧
              ((at_ σ i = Unlocking ∧ step σ (System false (move σ i Ticking))) ∨
               (∃ st, next (at_ σ i) st ∧
                      step σ (System (mutex σ) (move σ i st)) ∧
                      (remaining st < remaining (at_ σ i))%nat)))).
Proof.
  intros Hr. pose proof (reachable_held σ Hr) as Hheld. split.
  - split; [exact Hheld |]. intros [i Hi]. exact (reachable_locked σ i Hr Hi).
  - intros j Hj. destruct (mutex σ) eqn:Hm.
    + right. destruct (Hheld eq_refl) as [i Hi]. exists i.
      assert (Hne : i ≠ j) by (intros ->; now rewrite Hj in Hi).
      split; [done | split; [done |]].
      destruct (inCycle_moves _ Hi) as [Hu | [st' Hn]].
      * left. split; [done |]. now apply step_unlock.
      * right. exists st'. split; [done | split].
        -- rewrite <- Hm. now apply step_body.
        -- now apply next_remaining.
    + left. split; [done |]. now apply step_lock.
Qed.

Lemma lock_is_released_witness :
  reachable contended ∧ at_ contended 1 = Locking ∧
  (mutex contended = true ↔ ∃ i, inCycle (at_ contended i) = true).
Proof.
  split; [exact contended_reachable | split; [reflexivity |]].
  exact (proj1 (lock_is_released contended contended_reachable)).
Defined.

End PollersLaws.

Module PollCallsFacts.
Import Poller PollCalls.

#[local] Arguments Sub : simpl never.
#[local] Arguments byte_val : simpl never.

(** Case analysis on what the radio answers. *)
Ltac answer :=
  match goal with
  | |- context [match ?x with Some _ => _ | None => _ end] => is_var x; destruct x
  | |- context [if ?x then _ else _] => is_var x; destruct x
  | |- context [match ?x with [] => _ | _ :: _ => _ end] => is_var x; destruct x
  | |- context [parseNotification ?pf ?r] =>
      destruct (parseNotification pf r) as [[? [? |]] | ?]
  end.

Ltac by_answers c :=
  destruct c as [? ? [[? ?] ?] [? ?] ? ?];
  unfold poll, readBatteryLevel, readTemperatureAndHumidity,
    pollCalls, pollCtxCalls, readBatteryLevelCalls,
    readTemperatureAndHumidityCalls;
  cbn; repeat (answer; cbn).

Section WithParseFloat.
Variable ParseFloat : string → float * option error.

(** X26.  poll written out call by call, with its deferred calls, agrees
    with poll as a function of the radio's answers: it returns or panics
    alike, prints the same lines and sends the same Result, and sends
    nothing when it panics. *)
Theorem pollCalls_agrees (s : Sensor.t) (c : Cycle) :
  match poll ParseFloat s c with
  | Ok (log, res) =>
      out (pollCalls ParseFloat s c) = Ok tt ∧
      printed (calls (pollCalls ParseFloat s c)) = log ∧
      sent (calls (pollCalls ParseFloat s c)) = option_list res
  | Panic p =>
      out (pollCalls ParseFloat s c) = Panic p ∧
      sent (calls (pollCalls ParseFloat s c)) = []
  end.
Proof. by_answers c; repeat split. Qed.

(** X27.  On every path of poll, panics included: the first call is
    mutex.Lock, the last two are the context's cancel and mutex.Unlock,
    Lock and Unlock are each called once, and Unsubscribe is called as
    often as Subscribe. If the dial succeeds, CancelConnection is called
    exactly once, just before cancel; if it fails, the connection is not
    cancelled, no characteristic is touched and nothing is sent. *)
Theorem pollCalls_releases (s : Sensor.t) (c : Cycle) :
  let cs := calls (pollCalls ParseFloat s c) in
  head cs = Some MutexLock ∧ ending 2 cs = [CtxCancel; MutexUnlock] ∧
  count isLock cs = 1%nat ∧ count isUnlock cs = 1%nat ∧
  count isSubscribe cs = count isUnsubscribe cs ∧
  (dial c = None →
   ending 3 cs = [CancelConnection; CtxCancel; MutexUnlock] ∧
   count isCancelConnection cs = 1%nat) ∧
  (dial c ≠ None →
   count isCancelConnection cs = 0%nat ∧ count isRadio cs = 0%nat ∧
   count isSend cs = 0%nat).
Proof. by_answers c; repeat split; try done; intros H; done. Qed.

(** X28.  The version of poll that waits on ctx.Done() locks and unlocks
    the mutex once on every path and sends the same Result as the other
    version, but calls CancelConnection only after a send: a cycle that
    fails or panics after a successful dial returns without cancelling
    the connection. *)
Theorem pollCtxCalls_releases (ctxErr : error) (s : Sensor.t) (c : Cycle) :
  let cs := calls (pollCtxCalls ParseFloat ctxErr s c) in
  head cs = Some MutexLock ∧ ending 2 cs = [CtxCancel; MutexUnlock] ∧
  count isLock cs = 1%nat ∧ count isUnlock cs = 1%nat ∧
  count isSubscribe cs = count isUnsubscribe cs ∧
  count isCancelConnection cs = count isSend cs ∧
  sent cs = sent (calls (pollCalls ParseFloat s c)) ∧
  (dial c = None → (discover c).2 ≠ None →
   count isCancelConnection cs = 0%nat).
Proof. by_answers c; repeat split; try done; intros H; done. Qed.

End WithParseFloat.
End PollCallsFacts.
